(** * dask-worker launcher: a shallow embedding of [distributed/cli/dask_worker.py]

    The launcher parses its command-line options, builds a resource map and a
    lifetime from [KEY=VALUE] strings, constructs and starts [nprocs] worker or
    nanny objects, waits until one of them closes or the lifetime elapses, and
    then tears everything down.

    The file is organised as the program is:
    - [Py]: the Python built-ins the launcher calls ([str.replace],
      [str.split], [dict], [float], [sum], truthiness), with binary64
      arithmetic taken from [SpecFloat];
    - [Launcher]: the options of [main], the option blocks of [main]
      (validation, thread count, resources, lifetime, construction), the
      coroutines [retire], [run] and [f], the teardown sequence and
      [handle_signal], written in a small state-and-exception monad over a
      world that records what the process did;
    - the properties of those definitions. *)

From Stdlib Require Import ZArith QArith List String Ascii Bool Lia Lqa.
From Stdlib Require Import Permutation.
From Stdlib Require Import Floats.SpecFloat.
Import ListNotations.

Set Implicit Arguments.

Local Open Scope string_scope.
Local Open Scope Z_scope.

(* ================================================================== *)
(** * Python built-ins *)
(* ================================================================== *)

Module Py.

(** ** Exceptions *)

(** The exception classes the launcher raises, catches or lets through. *)
Inductive exn_class : Type :=
| ValueError
| KeyError
| TypeError
| IndexError
| ZeroDivisionError
| OSError
| IOError
| AttributeError
| TimeoutError
| KeyboardInterrupt
| SystemExit (code : Z).

(** An exception is its class and, when the launcher's own text gives it, its
    message; [None] stands for a message built by the interpreter. *)
Record exn : Type := Exn { exn_cls : exn_class; exn_msg : option string }.

Definition exn_class_eqb (a b : exn_class) : bool :=
  match a, b with
  | ValueError, ValueError | KeyError, KeyError | TypeError, TypeError
  | IndexError, IndexError | ZeroDivisionError, ZeroDivisionError
  | OSError, OSError | IOError, IOError | AttributeError, AttributeError
  | TimeoutError, TimeoutError | KeyboardInterrupt, KeyboardInterrupt => true
  | SystemExit m, SystemExit n => Z.eqb m n
  | _, _ => false
  end.

(** [isinstance(e, classes)] for an [except (A, B, ...)] clause.  None of the
    classes above derives from another one of them in Python 2; in Python 3
    [IOError] is [OSError] itself, and the launcher always lists both. *)
Definition caught_by (classes : list exn_class) (e : exn) : bool :=
  existsb (exn_class_eqb (exn_cls e)) classes.

(** The result of evaluating a pure expression that may raise. *)
Inductive result (A : Type) : Type :=
| Val (a : A)
| Err (e : exn).
Arguments Val {A} a.
Arguments Err {A} e.

Definition rbind {A B} (r : result A) (k : A -> result B) : result B :=
  match r with
  | Val a => k a
  | Err e => Err e
  end.

(** ** Strings *)

(** [str.isspace] on one character (code points below 256, Python 3 [str]). *)
Definition isspace (c : ascii) : bool :=
  let n := nat_of_ascii c in
  ((9 <=? n) && (n <=? 13) || (28 <=? n) && (n <=? 32)
   || (n =? 133) || (n =? 160))%nat.

(** [s.replace(a, b)] for one-character [a] and [b]. *)
Fixpoint str_replace (a b : ascii) (s : string) : string :=
  match s with
  | EmptyString => EmptyString
  | String c s' => String (if Ascii.eqb c a then b else c) (str_replace a b s')
  end.

Definition starts_word (s : string) : bool :=
  match s with
  | EmptyString => false
  | String c _ => negb (isspace c)
  end.

(** [s.split()]: the maximal runs of non-whitespace characters, in order. *)
Fixpoint str_split (s : string) : list string :=
  match s with
  | EmptyString => []
  | String c s' =>
      if isspace c then str_split s'
      else if starts_word s' then
        match str_split s' with
        | w :: ws => String c w :: ws
        | [] => [String c EmptyString]
        end
      else String c EmptyString :: str_split s'
  end.

(** [s.split(sep)] for a one-character separator: splits at every [sep]. *)
Fixpoint str_split_on (sep : ascii) (s : string) : list string :=
  match s with
  | EmptyString => [EmptyString]
  | String c s' =>
      if Ascii.eqb c sep then EmptyString :: str_split_on sep s'
      else
        match str_split_on sep s' with
        | w :: ws => String c w :: ws
        | [] => [String c EmptyString]
        end
  end.

Fixpoint str_rev_onto (s acc : string) : string :=
  match s with
  | EmptyString => acc
  | String c s' => str_rev_onto s' (String c acc)
  end.

Fixpoint str_lstrip (s : string) : string :=
  match s with
  | EmptyString => EmptyString
  | String c s' => if isspace c then str_lstrip s' else s
  end.

(** [s.strip()]. *)
Definition str_strip (s : string) : string :=
  str_rev_onto (str_lstrip (str_rev_onto (str_lstrip s) EmptyString)) EmptyString.

Definition ascii_lower (c : ascii) : ascii :=
  let n := nat_of_ascii c in
  if ((65 <=? n) && (n <=? 90))%nat then ascii_of_nat (n + 32) else c.

Fixpoint str_lower (s : string) : string :=
  match s with
  | EmptyString => EmptyString
  | String c s' => String (ascii_lower c) (str_lower s')
  end.

(** Truthiness of a [str]: non-empty. *)
Definition str_truthy (s : string) : bool :=
  match s with
  | EmptyString => false
  | String _ _ => true
  end.

(** ** Dictionaries

    A [dict] is kept as its items in insertion order; storing under a key
    that is already present replaces the value and keeps the key's place. *)

Definition dict (V : Type) : Type := list (string * V).

Fixpoint dict_set {V} (k : string) (v : V) (d : dict V) : dict V :=
  match d with
  | [] => [(k, v)]
  | (k', v') :: d' =>
      if String.eqb k k' then (k, v) :: d' else (k', v') :: dict_set k v d'
  end.

Fixpoint dict_get {V} (k : string) (d : dict V) : option V :=
  match d with
  | [] => None
  | (k', v) :: d' => if String.eqb k k' then Some v else dict_get k d'
  end.

(** [dict(seq)] for a sequence of lists: every element must have exactly two
    items, otherwise [ValueError]. *)
Fixpoint dict_update_seq (d : dict string) (seq : list (list string))
  : result (dict string) :=
  match seq with
  | [] => Val d
  | [k; v] :: rest => dict_update_seq (dict_set k v d) rest
  | _ :: _ => Err (Exn ValueError None)
  end.

Definition dict_of_seq (seq : list (list string)) : result (dict string) :=
  dict_update_seq [] seq.

(** [toolz.valmap(func, d)]: [func] applied to the values in the order of
    the items; the first exception ends it. *)
Fixpoint valmap {V W} (func : V -> result W) (d : dict V) : result (dict W) :=
  match d with
  | [] => Val []
  | (k, v) :: d' =>
      rbind (func v) (fun w =>
      rbind (valmap func d') (fun d'' => Val ((k, w) :: d'')))
  end.

(** ** Numbers: [int] and binary64 [float] *)

Definition prec : Z := 53.
Definition emax : Z := 1024.

Definition float : Type := spec_float.

(** The rational a finite binary64 stands for. *)
Definition float_to_Q (x : float) : option Q :=
  match x with
  | S754_zero _ => Some 0%Q
  | S754_finite s m e =>
      Some (Qred ((if s then - (1) else 1) * inject_Z (Zpos m) * 2 ^ e)%Q)
  | S754_infinity _ | S754_nan => None
  end.

(** [float(n)] for an [int]: rounded to nearest, ties to even.  (Python
    raises [OverflowError] beyond the binary64 range; the launcher converts
    only the factors of its table and [0].) *)
Definition float_of_int (n : Z) : float := binary_normalize prec emax n 0 false.

(** The binary64 nearest to [m * 10^e10] (ties to even) for a natural number
    [m], with sign [neg]: an integer is rounded as it is, a proper fraction
    [m / 10^k] through the quotient and the place of the remainder. *)
Definition float_of_decimal (neg : bool) (m : Z) (e10 : Z) : float :=
  match m with
  | Zpos _ =>
      if 0 <=? e10 then
        match m * 10 ^ e10 with
        | Zpos n => binary_round prec emax neg n 0
        | _ => S754_zero neg
        end
      else
        let '(q, e, l) := SFdiv_core_binary prec emax m 0 (10 ^ (- e10)) 0 in
        binary_round_aux prec emax neg q e l
  | _ => S754_zero neg
  end.

Definition is_digit (c : ascii) : bool :=
  let n := nat_of_ascii c in ((48 <=? n) && (n <=? 57))%nat.

Definition digit_val (c : ascii) : Z := Z.of_nat (nat_of_ascii c) - 48.

(** The longest prefix of decimal digits: its value, its length, the rest. *)
Fixpoint take_digits (s : string) (acc : Z) (len : Z) : Z * Z * string :=
  match s with
  | String c s' =>
      if is_digit c then take_digits s' (10 * acc + digit_val c) (len + 1)
      else (acc, len, s)
  | EmptyString => (acc, len, s)
  end.

(** An optional sign: whether it is a minus, and the rest. *)
Definition take_sign (s : string) : bool * string :=
  match s with
  | String "-"%char s' => (true, s')
  | String "+"%char s' => (false, s')
  | _ => (false, s)
  end.

(** The exponent part: nothing, or [e]/[E], an optional sign and at least one
    digit, up to the end of the string. *)
Definition parse_exponent (s : string) : option Z :=
  match s with
  | EmptyString => Some 0
  | String c s' =>
      if (Ascii.eqb c "e" || Ascii.eqb c "E")%bool then
        let '(neg, s1) := take_sign s' in
        match take_digits s1 0 0 with
        | (v, len, EmptyString) =>
            if 0 <? len then Some (if neg then - v else v) else None
        | _ => None
        end
      else None
  end.

(** [float(s)] for a [str]: surrounding whitespace is dropped, then
    [[sign] (inf | infinity | nan)] in any letter case, or
    [[sign] digits [. [digits]] [exponent]] with a digit before or after the
    point; anything else is a [ValueError].  (The underscores that
    Python 3.6 and later accept between digits are not part of this
    grammar.) *)
Definition float_of_str (s : string) : result float :=
  let '(neg, body) := take_sign (str_strip s) in
  let low := str_lower body in
  if (String.eqb low "inf" || String.eqb low "infinity")%bool then
    Val (S754_infinity neg)
  else if String.eqb low "nan" then Val S754_nan
  else
    let '(ip, ilen, r1) := take_digits body 0 0 in
    let '(m, flen, r2) :=
      match r1 with
      | String "."%char r1' =>
          let '(m, len, r2) := take_digits r1' ip ilen in (m, len - ilen, r2)
      | _ => (ip, 0, r1)
      end in
    if 0 <? ilen + flen then
      match parse_exponent r2 with
      | Some e => Val (float_of_decimal neg m (e - flen))
      | None => Err (Exn ValueError None)
      end
    else Err (Exn ValueError None).

(** Numbers as the launcher meets them. *)
Inductive num : Type :=
| Int (n : Z)
| Float (x : float).

Definition to_float (a : num) : float :=
  match a with
  | Int n => float_of_int n
  | Float x => x
  end.

(** [a * b] and [a + b]: exact on two [int]s, binary64 otherwise. *)
Definition mul (a b : num) : num :=
  match a, b with
  | Int m, Int n => Int (m * n)
  | _, _ => Float (SFmul prec emax (to_float a) (to_float b))
  end.

Definition add (a b : num) : num :=
  match a, b with
  | Int m, Int n => Int (m + n)
  | _, _ => Float (SFadd prec emax (to_float a) (to_float b))
  end.

(** [sum(xs)]: left to right from the [int] [0]. *)
Definition sum (xs : list num) : num := fold_left add xs (Int 0).

(** Truthiness of a number: different from zero ([nan] is truthy). *)
Definition num_truthy (a : num) : bool :=
  match a with
  | Int n => negb (n =? 0)
  | Float (S754_zero _) => false
  | Float _ => true
  end.

(** [a // b] on [int]s: floor division, [ZeroDivisionError] on [b = 0]. *)
Definition floordiv (a b : Z) : result Z :=
  if b =? 0 then Err (Exn ZeroDivisionError None) else Val (a / b).

End Py.

(* ================================================================== *)
(** * The launcher *)
(* ================================================================== *)

Module Launcher.
Import Py.

(** ** Options, constructor arguments and instances *)

(** The parameters of [main], as click hands them over. *)
Record options : Type := Options {
  scheduler : string;
  host : option string;
  worker_port : Z;
  http_port : Z;
  nanny_port : Z;
  nthreads : Z;
  nprocs : Z;
  nanny : bool;
  name : string;
  memory_limit : string;
  pid_file : string;
  temp_filename : option string;
  reconnect : bool;
  resources : string;
  lifetime : string;
  bokeh : bool;
  bokeh_port : Z;
  local_directory : string
}.

(** The decorators' defaults, for a given scheduler address. *)
Definition default_options (sched : string) : options :=
  {| scheduler := sched; host := None; worker_port := 0; http_port := 0;
     nanny_port := 0; nthreads := 0; nprocs := 1; nanny := true; name := "";
     memory_limit := "auto"; pid_file := ""; temp_filename := None;
     reconnect := true; resources := ""; lifetime := ""; bokeh := true;
     bokeh_port := 8789; local_directory := "" |}.

(** Truthiness of an optional string ([None] and [''] are falsy). *)
Definition opt_truthy (s : option string) : bool :=
  match s with
  | Some s' => str_truthy s'
  | None => false
  end.

Inductive flavor : Type := Nanny | Worker.

Inductive service : Type := HTTPWorker | BokehWorker.

(** The keyword arguments of one [t(scheduler, ...)] call. *)
Module Ctor.
Record t : Type := Make {
  cls : flavor;
  scheduler : string;
  ncores : Z;
  services : list (string * Z * service);
  name : string;
  resources : option (dict float);
  memory_limit : string;
  reconnect : bool;
  local_dir : string;
  worker_port : option Z;
  service_ports : option (dict Z)
}.
End Ctor.

Inductive status : Type := NotStarted | Running | Closed.

(** An instance is named by its place in [nannies].  What the launcher reads
    of it are the attributes of the [Nanny] or [Worker] object at the moment
    they are looked at; the library and the operating system change them. *)
Module Inst.
Record t : Type := Make {
  status : status;
  process : option nat;            (* the child process (its pid), or None *)
  process_isalive : bool;          (* isalive(n.process), distributed.nanny *)
  worker_port : option Z;
  worker_address : option string;
  address : string;
  worker_dir : option string;
  scheduler_ip : string;
  scheduler_port : Z;
  scheduler_address : string
}.
End Inst.

(** The attributes of every instance at one moment. *)
Definition snapshot : Type := nat -> Inst.t.

(** ** The world: what the process did, and its shared cells *)

(** What [loop.add_callback] is given. *)
Inductive callback : Type :=
| Cb_f                         (* the writer of [temp_filename], line 178 *)
| Cb_retire (seconds : num)    (* [retire], with the lifetime it sleeps *)
| Cb_loop_stop.                (* [loop.stop] *)

Inductive signal : Type := SIGINT | SIGTERM.

(** The effects of the process, each named after the call that makes it. *)
Inductive event : Type :=
| LogError (msg : string)                (* logger.error(msg) *)
| LogInfo (msg : string)                 (* logger.info(msg) *)
| WritePid (path : string) (pid : Z)     (* the pid written to pid_file *)
| AtexitRegister (path : string)         (* atexit.register(del_pid_file) *)
| SignalHandler (sig : signal)           (* signal.signal(sig, handle_signal) *)
| Construct (n : nat) (a : Ctor.t)       (* the n-th t(scheduler, ...) *)
| Start (n : nat) (host : option string) (port : Z)
                                         (* n.start((host, port)) or n.start(port) *)
| AddCallback (cb : callback)            (* loop.add_callback(cb) *)
| StoreRetired (b : bool)                (* retired = [b] or retired[0] = b *)
| RetireWorkers (ip : string) (port : Z) (workers : list (option string))
                (remove : bool)          (* scheduler.retire_workers(...) *)
| CloseLoop                              (* loop.close() *)
| NewLoop                                (* loop2 = IOLoop() *)
| Unregister (address : option string) (close : bool)
                                         (* scheduler.unregister(...) *)
| Terminate (n : nat)                    (* n.process.terminate() *)
| Sleep (seconds : Q)                    (* sleep(seconds) *)
| Stop (n : nat)                         (* n.stop() *)
| Rmtree (dir : option string).          (* shutil.rmtree(dir) *)

Record world : Type := World {
  trace : list event;                 (* effects, oldest first *)
  retired : bool;                     (* retired[0] *)
  global_nannies : list nat;
  loop_running : bool;                (* IOLoop.instance()._running *)
  now : Q;                            (* the clock, in seconds *)
  waits : nat                         (* blocking waits so far: what is
                                         observed may change at each *)
}.

Definition initial_world : world :=
  {| trace := []; retired := false; global_nannies := [];
     loop_running := false; now := 0%Q; waits := 0%nat |}.

(** What lies outside the file and the process. *)
Record environment : Type := Env {
  _ncores : Z;                             (* distributed.worker._ncores *)
  getpid : Z;
  open_w : string -> option exn;           (* open(path, 'w'): its failure *)
  bokeh_importable : bool;                 (* distributed.bokeh.worker *)
  check_python_3 : option exn              (* distributed.cli.utils *)
}.

(** ** A state-and-exception monad over the world *)

Definition M (A : Type) : Type := world -> result A * world.

Definition ret {A} (a : A) : M A := fun w => (Val a, w).

Definition bind {A B} (c : M A) (k : A -> M B) : M B :=
  fun w =>
    match c w with
    | (Val a, w') => k a w'
    | (Err e, w') => (Err e, w')
    end.

Definition raise {A} (e : exn) : M A := fun w => (Err e, w).

Definition lift {A} (r : result A) : M A := fun w => (r, w).

Notation "x <- c ;; k" := (bind c (fun x => k))
  (at level 61, c at next level, right associativity).
Notation "c ;; k" := (bind c (fun _ => k))
  (at level 61, right associativity).

Definition gets {A} (field : world -> A) : M A := fun w => (Val (field w), w).

(** The world with more events at the end of its trace. *)
Definition record (evs : list event) (w : world) : world :=
  {| trace := trace w ++ evs; retired := retired w;
     global_nannies := global_nannies w; loop_running := loop_running w;
     now := now w; waits := waits w |}.

Definition emit (e : event) : M unit := fun w => (Val tt, record [e] w).

(** [exit(code)] raises [SystemExit]. *)
Definition exit {A} (code : Z) : M A := raise (Exn (SystemExit code) None).

(** [try: c  except classes: handler]. *)
Definition try_except {A} (c : M A) (classes : list exn_class) (handler : M A)
  : M A :=
  fun w =>
    match c w with
    | (Err e, w') => if caught_by classes e then handler w' else (Err e, w')
    | r => r
    end.

Fixpoint for_each {A} (xs : list A) (body : A -> M unit) : M unit :=
  match xs with
  | [] => ret tt
  | x :: xs' => body x ;; for_each xs' body
  end.

Definition when (b : bool) (c : M unit) : M unit := if b then c else ret tt.

(** ** The option blocks of [main] *)

(** Lines 121-126: the resource map, [None] for an empty option. *)
Definition parse_resources (resources : string) : result (option (dict float)) :=
  if str_truthy resources then
    let tokens := str_split (str_replace "," " " resources) in
    rbind (dict_of_seq (map (str_split_on "=") tokens)) (fun pairs =>
    rbind (valmap float_of_str pairs) (fun d => Val (Some d)))
  else Val None.

Definition to_secs : dict Z :=
  [("d", 86400); ("days", 86400);
   ("h", 3600); ("hours", 3600);
   ("m", 60); ("mins", 60); ("minutes", 60);
   ("s", 1); ("secs", 1); ("seconds", 1)].

(** [to_secs[key] * val] for the items of the dictionary, in their order. *)
Fixpoint products (items : dict float) : result (list num) :=
  match items with
  | [] => Val []
  | (key, val) :: rest =>
      match dict_get key to_secs with
      | Some factor =>
          rbind (products rest) (fun ps => Val (mul (Int factor) (Float val) :: ps))
      | None => Err (Exn KeyError None)
      end
  end.

(** Lines 130-137: the body of the [try]. *)
Definition lifetime_seconds (lifetime : string) : result num :=
  let tokens := str_split (str_replace "," " " lifetime) in
  rbind (dict_of_seq (map (str_split_on "=") tokens)) (fun pairs =>
  rbind (valmap float_of_str pairs) (fun d =>
  rbind (products d) (fun ps => Val (sum ps)))).

Definition lifetime_error : exn :=
  Exn ValueError
      (Some "Lifetime specifier not understood, see --help for the proper format.").

(** Lines 128-140: the lifetime in seconds; [None] when the option is empty
    (the variable then keeps the empty string). *)
Definition parse_lifetime (lifetime : string) : result (option num) :=
  if str_truthy lifetime then
    match lifetime_seconds lifetime with
    | Val seconds => Val (Some seconds)
    | Err e =>
        if caught_by [KeyError; ValueError] e then Err lifetime_error
        else Err e
    end
  else Val None.

(** ** [main], up to the event loop (lines 86-196) *)

Definition port_error : string :=
  "Failed to launch worker.  You cannot use the --port argument when nprocs > 1.".

Definition name_error : string :=
  "Failed to launch worker.  You cannot use the --name argument when nprocs > 1.".

Definition set_retired (b : bool) : M unit :=
  fun w =>
    (Val tt,
     {| trace := trace w ++ [StoreRetired b]; retired := b;
        global_nannies := global_nannies w; loop_running := loop_running w;
        now := now w; waits := waits w |}).

Definition global_nannies_append (n : nat) : M unit :=
  fun w =>
    (Val tt,
     {| trace := trace w; retired := retired w;
        global_nannies := global_nannies w ++ [n];
        loop_running := loop_running w; now := now w; waits := waits w |}).

(** What [main] holds when it enters the event loop. *)
Record launched : Type := Launched {
  nannies : list nat;
  kwargs : Ctor.t;               (* what each of them was constructed with *)
  lifetime_s : option num
}.

(** Lines 91-97: the two checks on [nprocs > 1]. *)
Definition validate (o : options) : M unit :=
  when ((1 <? nprocs o) && negb (worker_port o =? 0))
       (emit (LogError port_error) ;; exit 1) ;;
  when ((1 <? nprocs o) && str_truthy (name o))
       (emit (LogError name_error) ;; exit 1).

(** Lines 99-100: [nthreads], or the cores divided among the processes. *)
Definition thread_count (env : environment) (o : options) : result Z :=
  if nthreads o =? 0 then floordiv (_ncores env) (nprocs o)
  else Val (nthreads o).

(** Lines 102-109: the pid file and its removal at exit. *)
Definition write_pid_file (env : environment) (o : options) : M unit :=
  when (str_truthy (pid_file o))
       (match open_w env (pid_file o) with
        | Some e => raise e
        | None => emit (WritePid (pid_file o) (getpid env)) ;;
                  emit (AtexitRegister (pid_file o))
        end).

(** Lines 111-119: the services, keyed by name and port. *)
Definition services_of (env : environment) (o : options)
  : list (string * Z * service) :=
  ("http", http_port o, HTTPWorker)
  :: (if bokeh o && bokeh_importable env
      then [("bokeh", bokeh_port o, BokehWorker)] else []).

(** Lines 145-157: the class [t] and the arguments of every [t(...)]. *)
Definition ctor_args (env : environment) (o : options) (nthreads' : Z)
  (resources' : option (dict float)) : Ctor.t :=
  {| Ctor.cls := if nanny o then Nanny else Worker;
     Ctor.scheduler := scheduler o;
     Ctor.ncores := nthreads';
     Ctor.services := services_of env o;
     Ctor.name := name o;
     Ctor.resources := resources';
     Ctor.memory_limit := memory_limit o;
     Ctor.reconnect := reconnect o;
     Ctor.local_dir := local_directory o;
     Ctor.worker_port := if nanny o then Some (worker_port o) else None;
     Ctor.service_ports :=
       if nanny o then None
       else if nanny_port o =? 0 then None
            else Some [("nanny", nanny_port o)] |}.

(** Lines 160-166: every instance is started, and a nanny is tracked. *)
Definition start_all (o : options) (nannies : list nat) : M unit :=
  let port := if nanny o then nanny_port o else worker_port o in
  for_each nannies (fun n =>
    emit (Start n (if opt_truthy (host o) then host o else None) port) ;;
    when (nanny o) (global_nannies_append n)).

(** Lines 182-196: [retire] is scheduled when the lifetime is truthy. *)
Definition schedule_retire (lifetime' : option num) : M unit :=
  match lifetime' with
  | Some seconds =>
      when (num_truthy seconds) (emit (AddCallback (Cb_retire seconds)))
  | None => ret tt
  end.

Definition main_launch (env : environment) (o : options) : M launched :=
  validate o ;;
  nthreads' <- lift (thread_count env o) ;;
  write_pid_file env o ;;
  resources' <- lift (parse_resources (resources o)) ;;
  lifetime' <- lift (parse_lifetime (lifetime o)) ;;
  let kw := ctor_args env o nthreads' resources' in
  let nannies := seq 0 (Z.to_nat (nprocs o)) in
  for_each nannies (fun n => emit (Construct n kw)) ;;
  start_all o nannies ;;
  when (opt_truthy (temp_filename o)) (emit (AddCallback Cb_f)) ;;
  set_retired false ;;
  schedule_retire lifetime' ;;
  ret {| nannies := nannies; kwargs := kw; lifetime_s := lifetime' |}.

(** ** The coroutines of the primary loop *)

(** Truthiness of [n.process] and of the optional attributes. *)
Definition has_process (i : Inst.t) : bool :=
  match Inst.process i with Some _ => true | None => false end.

Definition port_truthy (p : option Z) : bool :=
  match p with Some p' => negb (p' =? 0) | None => false end.

(** Lines 189-191: the endpoints [retire] lists. *)
Definition retire_list (nanny : bool) (nannies : list nat) (look : snapshot)
  : list (option string) :=
  if nanny then
    map (fun n => Inst.worker_address (look n))
        (filter (fun n => has_process (look n)
                          && port_truthy (Inst.worker_port (look n)))
                nannies)
  else map (fun n => Some (Inst.address (look n))) nannies.

(** [retire] once [gen.sleep(lifetime)] has elapsed (lines 186-194); the
    scheduler is the one of [nannies[0]]. *)
Definition retire (nanny : bool) (nannies : list nat) (look : snapshot)
  : M unit :=
  emit (LogInfo "Retiring worker...") ;;
  match nannies with
  | [] => raise (Exn IndexError None)
  | first :: _ =>
      let workers := retire_list nanny nannies look in
      emit (RetireWorkers (Inst.scheduler_ip (look first))
                          (Inst.scheduler_port (look first)) workers false) ;;
      set_retired true ;;
      emit (LogInfo "Worker retired")
  end.

Definition status_eqb (a b : status) : bool :=
  match a, b with
  | NotStarted, NotStarted | Running, Running | Closed, Closed => true
  | _, _ => false
  end.

(** The condition of the [while] of [run] (line 200). *)
Definition run_condition (nannies : list nat) (look : snapshot) (w : world)
  : bool :=
  forallb (fun n => negb (status_eqb (Inst.status (look n)) Closed)) nannies
  && negb (retired w).

(** One turn of a polling coroutine. *)
Inductive turn : Type :=
| Yield_sleep (seconds : Q)
| Return.

(** [run]: sleeps 0.2 s while the condition holds, returns when it fails. *)
Definition run (nannies : list nat) (look : snapshot) (w : world) : turn :=
  if run_condition nannies look w then Yield_sleep (2 # 10) else Return.

(** [try: c  finally: fin]. *)
Definition try_finally {A} (c : M A) (fin : M unit) : M A :=
  fun w =>
    match c w with
    | (r, w') =>
        match fin w' with
        | (Val _, w'') => (r, w'')
        | (Err e, w'') => (Err e, w'')
        end
    end.

(** Lines 203-209: [loop.run_sync(run)] under its handlers; [during] is what
    the loop ran until [run_sync] came back, with the exception it came back
    with if any. *)
Definition run_sync_run (during : M unit) : M unit :=
  try_finally
    (try_except during [KeyboardInterrupt; TimeoutError] (ret tt))
    (emit (LogInfo "End worker") ;; emit CloseLoop).

(** ** Teardown (lines 211-238) *)

(** What becomes of the [unregister] calls, taken together: answered after
    some seconds, failed after some seconds, or never settled. *)
Inductive answer : Type :=
| Completes (after : Q)
| Fails (after : Q) (e : exn)
| Never.

Definition Qlt_bool (a b : Q) : bool := negb (Qle_bool b a).

(** The process blocks for [seconds]. *)
Definition elapse (seconds : Q) : M unit :=
  fun w =>
    (Val tt,
     {| trace := trace w; retired := retired w;
        global_nannies := global_nannies w; loop_running := loop_running w;
        now := (now w + seconds)%Q; waits := S (waits w) |}).

(** [yield gen.with_timeout(timedelta(seconds=limit), future)]: the result of
    the future when it settles before the limit, [TimeoutError] at the limit
    otherwise. *)
Definition with_timeout (limit : Q) (a : answer) : M unit :=
  match a with
  | Completes t =>
      if Qlt_bool t limit then elapse t
      else elapse limit ;; raise (Exn TimeoutError None)
  | Fails t e =>
      if Qlt_bool t limit then elapse t ;; raise e
      else elapse limit ;; raise (Exn TimeoutError None)
  | Never => elapse limit ;; raise (Exn TimeoutError None)
  end.

(** Line 221: the instances [f] unregisters. *)
Definition unregister_list (nannies : list nat) (look : snapshot)
  : list nat :=
  filter (fun n => has_process (look n)
                   && opt_truthy (Inst.worker_address (look n))) nannies.

(** The coroutine [f] of lines 215-222 (the scheduler is the one of
    [nannies[0]]); [loop2.run_sync(f)] returns what it returns and raises
    what it raises. *)
Definition f (nanny : bool) (nannies : list nat) (look : snapshot)
  (a : answer) : M unit :=
  match nannies with
  | [] => raise (Exn IndexError None)
  | _ :: _ =>
      when nanny
        (for_each (unregister_list nannies look)
           (fun n => emit (Unregister (Inst.worker_address (look n)) true)) ;;
         with_timeout 2 a)
  end.

(** Lines 226-229. *)
Definition terminate_children (nanny : bool) (nannies : list nat)
  (look : snapshot) : M unit :=
  when nanny
    (for_each nannies (fun n =>
       when (Inst.process_isalive (look n)) (emit (Terminate n)))).

(** [sleep(seconds)]: the process comes back [late k] seconds after the
    requested time, at its [k]-th wait. *)
Definition sleep (late : nat -> Q) (seconds : Q) : M unit :=
  fun w =>
    (Val tt,
     {| trace := trace w ++ [Sleep seconds]; retired := retired w;
        global_nannies := global_nannies w; loop_running := loop_running w;
        now := (now w + seconds + late (waits w))%Q; waits := S (waits w) |}).

(** Line 233: whether some child is alive. *)
Definition any_alive (nannies : list nat) (look : snapshot) : bool :=
  existsb (fun n => Inst.process_isalive (look n)) nannies.

(** The [while] of lines 233-235, with the clock read at line 232 in [start].
    [None]: the fuel ran out before the loop ended. *)
Fixpoint wait_children (fuel : nat) (nannies : list nat)
  (looks : nat -> snapshot) (late : nat -> Q) (start : Q) (w : world)
  : option world :=
  match fuel with
  | O => None
  | S fuel' =>
      if any_alive nannies (looks (waits w))
         && Qlt_bool (now w) (start + 1)
      then wait_children fuel' nannies looks late start
                         (snd (sleep late (1 # 10) w))
      else Some w
  end.

(** Lines 237-238. *)
Definition stop_all (nannies : list nat) : M unit :=
  for_each nannies (fun n => emit (Stop n)).

(** Lines 213-238 in order.  [None]: the fuel of the waiting loop ran out. *)
Definition main_teardown (fuel : nat) (nanny : bool) (nannies : list nat)
  (looks : nat -> snapshot) (late : nat -> Q) (a : answer) (w : world)
  : option (result unit * world) :=
  match (emit NewLoop ;; f nanny nannies (looks (waits w)) a) w with
  | (Err e, w1) => Some (Err e, w1)
  | (Val _, w1) =>
      match terminate_children nanny nannies (looks (waits w1)) w1 with
      | (Err e, w2) => Some (Err e, w2)
      | (Val _, w2) =>
          if nanny then
            match wait_children fuel nannies looks late (now w2) w2 with
            | Some w3 => Some (stop_all nannies w3)
            | None => None
            end
          else Some (stop_all nannies w2)
      end
  end.

(** [main]: launch, the primary loop, teardown. *)
Definition main (env : environment) (o : options)
  (during : launched -> M unit) (fuel : nat) (looks : nat -> snapshot)
  (late : nat -> Q) (a : answer) (w : world)
  : option (result unit * world) :=
  match main_launch env o w with
  | (Err e, w1) => Some (Err e, w1)
  | (Val l, w1) =>
      match run_sync_run (during l) w1 with
      | (Err e, w2) => Some (Err e, w2)
      | (Val _, w2) => main_teardown fuel (nanny o) (nannies l) looks late a w2
      end
  end.

(** ** The signal handler (lines 32-42) and [go] (lines 241-248) *)

Definition rmtree (fs : option string -> option exn) (dir : option string)
  : M unit :=
  emit (Rmtree dir) ;;
  match fs dir with
  | Some e => raise e
  | None => ret tt
  end.

(** [fs] is what [shutil.rmtree] raises on a path, if anything. *)
Definition handle_signal (look : snapshot) (fs : option string -> option exn)
  : M unit :=
  tracked <- gets global_nannies ;;
  for_each tracked (fun nanny =>
    try_except (rmtree fs (Inst.worker_dir (look nanny)))
               [OSError; IOError; TypeError] (ret tt)) ;;
  running <- gets loop_running ;;
  if running then emit (AddCallback Cb_loop_stop) else exit 1.

Definition go (env : environment) (o : options)
  (during : launched -> M unit) (fuel : nat) (looks : nat -> snapshot)
  (late : nat -> Q) (a : answer) (w : world)
  : option (result unit * world) :=
  match (emit (SignalHandler SIGINT) ;; emit (SignalHandler SIGTERM) ;;
         match check_python_3 env with
         | Some e => raise e
         | None => ret tt
         end) w with
  | (Err e, w1) => Some (Err e, w1)
  | (Val _, w1) => main env o during fuel looks late a w1
  end.

(** ** The writer of the temp file (the first [f], lines 169-177) *)





End Launcher.

(* ================================================================== *)
(** * Vocabulary of the statements *)
(* ================================================================== *)

Import Py Launcher.

Unset Implicit Arguments.
Local Open Scope list_scope.

(** The [KEY=VALUE] tokens of an option string, each split at [=]. *)
Definition pairs_of (s : string) : list (list string) :=
  map (str_split_on "=") (str_split (str_replace "," " " s)).

(** A token with a key outside [to_secs]. *)
Definition has_unknown_unit (s : string) : Prop :=
  exists k v, In [k; v] (pairs_of s) /\ dict_get k to_secs = None.

(** A token whose value [float] rejects. *)
Definition has_non_numeric_value (s : string) : Prop :=
  exists k v e, In [k; v] (pairs_of s) /\ float_of_str v = Err e.

(** A token whose value [float] rejects and whose key no later token has. *)
Definition has_final_non_numeric_value (s : string) : Prop :=
  exists pre k v post e,
    pairs_of s = (pre ++ [k; v] :: post)%list /\ float_of_str v = Err e /\
    forall v', ~ In [k; v'] post.

(** The factor of a unit, [0] for a key outside the table. *)
Definition seconds_per (unit : string) : Z :=
  match dict_get unit to_secs with
  | Some factor => factor
  | None => 0
  end.

(** The events of the pid-file block, of the starts and of the scheduling of
    [retire], as [main_launch] records them. *)
Definition pid_events (env : environment) (o : options) : list event :=
  if str_truthy (pid_file o)
  then [WritePid (pid_file o) (getpid env); AtexitRegister (pid_file o)]
  else [].

Definition start_event (o : options) (n : nat) : event :=
  Start n (if opt_truthy (host o) then host o else None)
        (if nanny o then nanny_port o else worker_port o).

Definition retire_events (lifetime' : option num) : list event :=
  match lifetime' with
  | Some seconds =>
      if num_truthy seconds then [AddCallback (Cb_retire seconds)] else []
  | None => []
  end.

Definition launch_events (env : environment) (o : options) (kw : Ctor.t)
  (lifetime' : option num) : list event :=
  let nannies := seq 0 (Z.to_nat (nprocs o)) in
  (pid_events env o
   ++ map (fun n => Construct n kw) nannies
   ++ map (start_event o) nannies
   ++ (if opt_truthy (temp_filename o) then [AddCallback Cb_f] else [])
   ++ [StoreRetired false]
   ++ retire_events lifetime')%list.

Definition is_construct (e : event) : bool :=
  match e with
  | Construct _ _ => true
  | _ => false
  end.

(** A machine of eight cores, and the defaults with two processes. *)
Definition eight_cores : environment :=
  {| _ncores := 8; getpid := 4242; open_w := fun _ => None;
     bokeh_importable := true; check_python_3 := None |}.

Definition two_processes : options :=
  {| scheduler := "127.0.0.1:8786"; host := None; worker_port := 0;
     http_port := 0; nanny_port := 0; nthreads := 0; nprocs := 2;
     nanny := true; name := ""; memory_limit := "auto"; pid_file := "";
     temp_filename := None; reconnect := true; resources := "";
     lifetime := ""; bokeh := true; bokeh_port := 8789;
     local_directory := "" |}.

Definition exit_1 : exn := Exn (SystemExit 1) None.

(** What [main_launch] returns and leaves behind when it reaches the loop. *)
Definition launched_of (env : environment) (o : options) (nt : Z)
  (res : option (dict float)) (lt : option num) : launched :=
  {| nannies := seq 0 (Z.to_nat (nprocs o));
     kwargs := ctor_args env o nt res;
     lifetime_s := lt |}.

Definition world_after_launch (env : environment) (o : options) (nt : Z)
  (res : option (dict float)) (lt : option num) (w : world) : world :=
  {| trace := trace w ++ launch_events env o (ctor_args env o nt res) lt;
     retired := false;
     global_nannies :=
       global_nannies w ++ (if nanny o then seq 0 (Z.to_nat (nprocs o)) else []);
     loop_running := loop_running w; now := now w; waits := waits w |}.



(** One process with the resources of the help text. *)
Definition one_process_gpu : options :=
  {| scheduler := "127.0.0.1:8786"; host := None; worker_port := 0;
     http_port := 0; nanny_port := 0; nthreads := 0; nprocs := 1;
     nanny := true; name := ""; memory_limit := "auto"; pid_file := "";
     temp_filename := None; reconnect := true; resources := "GPU=2 MEM=10e9";
     lifetime := ""; bokeh := true; bokeh_port := 8789;
     local_directory := "" |}.

(** A running nanny with a live child, as the launcher may observe it. *)
Definition running_nanny : Inst.t :=
  {| Inst.status := Running; Inst.process := Some 4243%nat;
     Inst.process_isalive := true; Inst.worker_port := Some 40000;
     Inst.worker_address := Some "tcp://127.0.0.1:40000";
     Inst.address := "tcp://127.0.0.1:40001";
     Inst.worker_dir := Some "/tmp/nanny-0";
     Inst.scheduler_ip := "127.0.0.1"; Inst.scheduler_port := 8786;
     Inst.scheduler_address := "tcp://127.0.0.1:8786" |}.

Definition all_running : snapshot := fun _ => running_nanny.

(** The working directories of the tracked nannies, in their order. *)
Definition tracked_dirs (look : snapshot) (w : world) : list (option string) :=
  map (fun n => Inst.worker_dir (look n)) (global_nannies w).

(** A file system on which deleting "/tmp/nanny-0" fails with [OSError] and
    deleting no path at all with [TypeError]. *)
Definition failing_fs (dir : option string) : option exn :=
  match dir with
  | Some _ => Some (Exn OSError None)
  | None => Some (Exn TypeError None)
  end.

Definition two_tracked (running : bool) : world :=
  {| trace := []; retired := false; global_nannies := [0%nat; 1%nat];
     loop_running := running; now := 0%Q; waits := 0%nat |}.

(** The answer arrives too late for [with_timeout 2], or not at all. *)
Definition unanswered (a : answer) : bool :=
  match a with
  | Completes t | Fails t _ => negb (Qlt_bool t 2)
  | Never => true
  end.

Definition is_terminate (e : event) : bool :=
  match e with
  | Terminate _ => true
  | _ => false
  end.

(** Children that never exit, and a clock on which every sleep is exact. *)
Definition never_exit : nat -> snapshot := fun _ => all_running.

Definition punctual : nat -> Q := fun _ => 0%Q.

(** The events of [f] in nanny mode: the fresh loop, then one [unregister]
    call with [close=True] for every nanny with a process and an address. *)
Definition unregister_events (nannies : list nat) (look : snapshot)
  : list event :=
  NewLoop
  :: map (fun n => Unregister (Inst.worker_address (look n)) true)
         (unregister_list nannies look).

(** Invocations used as examples below: no process at all; two processes
    with four threads each asked for; one process with a pid file and a
    resources token without [=]; two nannies on nanny port 9000; one process
    with a lifetime of zero seconds; two workers without nannies. *)
Definition no_process : options :=
  {| scheduler := "127.0.0.1:8786"; host := None; worker_port := 0;
     http_port := 0; nanny_port := 0; nthreads := 0; nprocs := 0;
     nanny := true; name := ""; memory_limit := "auto"; pid_file := "";
     temp_filename := None; reconnect := true; resources := "";
     lifetime := ""; bokeh := true; bokeh_port := 8789;
     local_directory := "" |}.

Definition two_processes_four_threads : options :=
  {| scheduler := "127.0.0.1:8786"; host := None; worker_port := 0;
     http_port := 0; nanny_port := 0; nthreads := 4; nprocs := 2;
     nanny := true; name := ""; memory_limit := "auto"; pid_file := "";
     temp_filename := None; reconnect := true; resources := "";
     lifetime := ""; bokeh := true; bokeh_port := 8789;
     local_directory := "" |}.

Definition pid_file_bad_resources : options :=
  {| scheduler := "127.0.0.1:8786"; host := None; worker_port := 0;
     http_port := 0; nanny_port := 0; nthreads := 0; nprocs := 1;
     nanny := true; name := ""; memory_limit := "auto";
     pid_file := "/tmp/worker.pid";
     temp_filename := None; reconnect := true; resources := "GPU";
     lifetime := ""; bokeh := true; bokeh_port := 8789;
     local_directory := "" |}.

Definition two_nannies_port_9000 : options :=
  {| scheduler := "127.0.0.1:8786"; host := None; worker_port := 0;
     http_port := 0; nanny_port := 9000; nthreads := 0; nprocs := 2;
     nanny := true; name := ""; memory_limit := "auto"; pid_file := "";
     temp_filename := None; reconnect := true; resources := "";
     lifetime := ""; bokeh := true; bokeh_port := 8789;
     local_directory := "" |}.

Definition lifetime_zero : options :=
  {| scheduler := "127.0.0.1:8786"; host := None; worker_port := 0;
     http_port := 0; nanny_port := 0; nthreads := 0; nprocs := 1;
     nanny := true; name := ""; memory_limit := "auto"; pid_file := "";
     temp_filename := None; reconnect := true; resources := "";
     lifetime := "s=0"; bokeh := true; bokeh_port := 8789;
     local_directory := "" |}.

Definition two_workers : options :=
  {| scheduler := "127.0.0.1:8786"; host := None; worker_port := 0;
     http_port := 0; nanny_port := 0; nthreads := 0; nprocs := 2;
     nanny := false; name := ""; memory_limit := "auto"; pid_file := "";
     temp_filename := None; reconnect := true; resources := "";
     lifetime := ""; bokeh := true; bokeh_port := 8789;
     local_directory := "" |}.

(** A token that is not one key and one value around a single [=]. *)
Definition has_malformed_pair (s : string) : Prop :=
  exists p, In p (pairs_of s) /\ List.length p <> 2%nat.

(** A string of whitespace and commas only. *)
Fixpoint all_blank (s : string) : bool :=
  match s with
  | EmptyString => true
  | String c s' => (isspace c || Ascii.eqb c ",") && all_blank s'
  end.

(** A file system on which every deletion fails with [ValueError]. *)
Definition odd_fs (dir : option string) : option exn :=
  Some (Exn ValueError None).




(** A scheduler that answers after half a second, and children that have
    exited by then. *)
Definition exited_nanny : Inst.t :=
  {| Inst.status := Closed; Inst.process := Some 4243%nat;
     Inst.process_isalive := false; Inst.worker_port := Some 40000;
     Inst.worker_address := Some "tcp://127.0.0.1:40000";
     Inst.address := "tcp://127.0.0.1:40001";
     Inst.worker_dir := Some "/tmp/nanny-0";
     Inst.scheduler_ip := "127.0.0.1"; Inst.scheduler_port := 8786;
     Inst.scheduler_address := "tcp://127.0.0.1:8786" |}.

Definition exit_on_unregister : nat -> snapshot :=
  fun k _ => if (k =? 0)%nat then running_nanny else exited_nanny.

(** The children alive at one moment, in the order of [nannies]. *)
Definition alive_list (nannies : list nat) (look : snapshot) : list nat :=
  filter (fun n => Inst.process_isalive (look n)) nannies.


(* ================================================================== *)
(** * Properties *)
(* ================================================================== *)


(** ** Facts about the built-ins *)

Section StringFacts.

Variables a b : ascii.
Hypothesis fresh : Ascii.eqb b a = false.

Lemma str_replace_idem (s : string) :
  str_replace a b (str_replace a b s) = str_replace a b s.
Proof using fresh.
  induction s as [|c s IH]; simpl; [reflexivity|].
  rewrite IH. destruct (Ascii.eqb c a) eqn:E.
  - now rewrite fresh.
  - now rewrite E.
Qed.

Lemma str_truthy_replace (s : string) :
  str_truthy (str_replace a b s) = str_truthy s.
Proof. now destruct s. Qed.
End StringFacts.

Section DictFacts.

Context {V : Type}.

Lemma dict_get_set_same (k : string) (v : V) (d : dict V) :
  dict_get k (dict_set k v d) = Some v.
Proof.
  induction d as [|[k' v'] d IH]; simpl.
  - now rewrite String.eqb_refl.
  - destruct (String.eqb k k') eqn:E; simpl; rewrite ?String.eqb_refl, ?E; auto.
Qed.

Lemma dict_get_set_other (k k' : string) (v : V) (d : dict V) :
  k <> k' -> dict_get k (dict_set k' v d) = dict_get k d.
Proof.
  intros Hne. induction d as [|[k0 v0] d IH]; simpl.
  - destruct (String.eqb_spec k k'); [contradiction|reflexivity].
  - destruct (String.eqb_spec k' k0) as [->|Hk0]; simpl.
    + destruct (String.eqb_spec k k0); [contradiction|reflexivity].
    + destruct (String.eqb_spec k k0); [reflexivity|exact IH].
Qed.

Lemma dict_get_In (k : string) (v : V) (d : dict V) :
  dict_get k d = Some v -> In (k, v) d.
Proof.
  induction d as [|[k' v'] d IH]; simpl; [discriminate|].
  destruct (String.eqb_spec k k') as [->|_]; intros H.
  - injection H as ->. now left.
  - right. auto.
Qed.

Lemma dict_get_keys (k : string) (d : dict V) :
  dict_get k d <> None <-> In k (map fst d).
Proof.
  induction d as [|[k' v'] d IH]; simpl.
  - split; [congruence | tauto].
  - destruct (String.eqb_spec k k') as [->|Hne].
    + split; [now left | congruence].
    + rewrite IH. split; [now right | intros [E|H]; [congruence | exact H]].
Qed.
End DictFacts.

(** What [dict(seq)] holds when it succeeds: every key of the sequence, and
    under a key the value of the last element that has the key. *)
Lemma dict_update_seq_keeps (seq : list (list string)) :
  forall d d' k, dict_update_seq d seq = Val d' ->
    dict_get k d <> None -> dict_get k d' <> None.
Proof.
  induction seq as [|p seq IH]; intros d d' k H Hk; simpl in H.
  - now injection H as <-.
  - destruct p as [|k0 [|v0 [|? ?]]]; try discriminate.
    apply (IH _ _ k H).
    destruct (String.eqb_spec k k0) as [->|Hne].
    + rewrite dict_get_set_same. discriminate.
    + now rewrite dict_get_set_other.
Qed.

Lemma dict_update_seq_key (seq : list (list string)) :
  forall d d' k v, dict_update_seq d seq = Val d' ->
    In [k; v] seq -> dict_get k d' <> None.
Proof.
  induction seq as [|p seq IH]; intros d d' k v H Hin; simpl in H.
  - destruct Hin.
  - destruct p as [|k0 [|v0 [|? ?]]]; try discriminate.
    destruct Hin as [E|Hin].
    + injection E as -> ->.
      apply (dict_update_seq_keeps _ _ _ _ H). rewrite dict_get_set_same. discriminate.
    + eapply IH; eauto.
Qed.

Lemma dict_update_seq_unchanged (seq : list (list string)) :
  forall d d' k, dict_update_seq d seq = Val d' ->
    (forall v, ~ In [k; v] seq) -> dict_get k d' = dict_get k d.
Proof.
  induction seq as [|p seq IH]; intros d d' k H Hno; simpl in H.
  - now injection H as <-.
  - destruct p as [|k0 [|v0 [|? ?]]]; try discriminate.
    rewrite (IH _ _ k H).
    + apply dict_get_set_other. intros ->. apply (Hno v0). now left.
    + intros v Hin. apply (Hno v). now right.
Qed.

Lemma dict_update_seq_last (pre post : list (list string)) :
  forall d d' k v, dict_update_seq d (pre ++ [k; v] :: post) = Val d' ->
    (forall v', ~ In [k; v'] post) -> dict_get k d' = Some v.
Proof.
  induction pre as [|p pre IH]; intros d d' k v H Hno; simpl in H.
  - rewrite (dict_update_seq_unchanged _ _ _ _ H Hno). apply dict_get_set_same.
  - destruct p as [|k0 [|v0 [|? ?]]]; try discriminate. eapply IH; eauto.
Qed.

Lemma dict_update_seq_error (seq : list (list string)) :
  forall d e, dict_update_seq d seq = Err e -> e = Exn ValueError None.
Proof.
  induction seq as [|p seq IH]; intros d e H; simpl in H; [discriminate|].
  destruct p as [|k0 [|v0 [|? ?]]]; try (now injection H as <-).
  eapply IH; eauto.
Qed.

Section ValmapFacts.

Context {V W : Type}.
Variable func : V -> result W.

Lemma valmap_defined (d : dict V) (d' : dict W) :
  valmap func d = Val d' ->
  forall k v, In (k, v) d -> exists w, func v = Val w.
Proof.
  revert d'. induction d as [|[k0 v0] d IH]; intros d' H k v Hin.
  - destruct Hin.
  - simpl in H. destruct (func v0) as [w0|e] eqn:E0; [|discriminate].
    simpl in H. destruct (valmap func d) as [d0|e]; [|discriminate].
    destruct Hin as [E|Hin].
    + injection E as _ <-. eauto.
    + eapply IH; eauto.
Qed.

Lemma valmap_keys (d : dict V) (d' : dict W) :
  valmap func d = Val d' -> map fst d' = map fst d.
Proof.
  revert d'. induction d as [|[k0 v0] d IH]; intros d' H; simpl in H.
  - now injection H as <-.
  - destruct (func v0) as [w0|e]; [|discriminate]. simpl in H.
    destruct (valmap func d) as [d0|e]; [|discriminate].
    injection H as <-. simpl. f_equal. now apply IH.
Qed.

Lemma valmap_error (d : dict V) (e : exn) :
  valmap func d = Err e -> exists v, In v (map snd d) /\ func v = Err e.
Proof.
  induction d as [|[k0 v0] d IH]; intros H; simpl in H; [discriminate|].
  destruct (func v0) as [w0|e0] eqn:E0; simpl in H.
  - destruct (valmap func d) as [d0|e1]; [discriminate|].
    injection H as ->. destruct IH as [v [Hin Hv]]; [reflexivity|].
    exists v. split; [now right | exact Hv].
  - injection H as ->. exists v0. split; [now left | exact E0].
Qed.
End ValmapFacts.

(** Every failure of [float(s)] is a [ValueError]. *)
Lemma float_of_str_error (s : string) (e : exn) :
  float_of_str s = Err e -> e = Exn ValueError None.
Proof.
  unfold float_of_str.
  repeat match goal with
         | |- context [let '(_, _) := ?x in _] => destruct x
         | |- context [match ?x with _ => _ end] => destruct x
         | |- context [if ?x then _ else _] => destruct x
         end;
    intros H; try discriminate; now injection H as <-.
Qed.

(** ** Resources and lifetime *)

Lemma parse_resources_unfold (s : string) :
  parse_resources s =
  if str_truthy s then
    rbind (dict_of_seq (pairs_of s)) (fun pairs =>
    rbind (valmap float_of_str pairs) (fun d => Val (Some d)))
  else Val None.
Proof. reflexivity. Qed.

Lemma lifetime_seconds_unfold (s : string) :
  lifetime_seconds s =
  rbind (dict_of_seq (pairs_of s)) (fun pairs =>
  rbind (valmap float_of_str pairs) (fun d =>
  rbind (products d) (fun ps => Val (sum ps)))).
Proof. reflexivity. Qed.

Lemma pairs_of_replace (s : string) :
  pairs_of (str_replace "," " " s) = pairs_of s.
Proof.
  unfold pairs_of. now rewrite str_replace_idem.
Qed.

Lemma pairs_of_nonempty (s : string) :
  pairs_of s <> [] -> str_truthy s = true.
Proof. destruct s; [intros H; now elim H | reflexivity]. Qed.

Lemma products_error (d : dict float) (e : exn) :
  products d = Err e -> e = Exn KeyError None.
Proof.
  induction d as [|[k v] d IH]; cbn [products]; [discriminate|].
  destruct (dict_get k to_secs).
  - destruct (products d) as [ps|e0]; cbn [rbind]; [discriminate|].
    intros H. injection H as <-. now apply IH.
  - intros H. now injection H as <-.
Qed.

Lemma products_keys (d : dict float) (ps : list num) :
  products d = Val ps ->
  forall k, In k (map fst d) -> dict_get k to_secs <> None.
Proof.
  revert ps. induction d as [|[k0 v0] d IH]; intros ps H k Hin.
  - destruct Hin.
  - cbn [products] in H. destruct (dict_get k0 to_secs) eqn:E; [|discriminate].
    destruct (products d) as [ps'|]; [|discriminate].
    destruct Hin as [<-|Hin]; [cbn [fst]; congruence | eapply IH; eauto].
Qed.

(** Every exception of the [try] body is one its [except] clause catches. *)
Lemma lifetime_seconds_error (s : string) (e : exn) :
  lifetime_seconds s = Err e -> caught_by [KeyError; ValueError] e = true.
Proof.
  rewrite lifetime_seconds_unfold. unfold dict_of_seq.
  destruct (dict_update_seq [] (pairs_of s)) as [pairs|e0] eqn:E0; simpl.
  - destruct (valmap float_of_str pairs) as [d|e1] eqn:E1; simpl.
    + destruct (products d) as [ps|e2] eqn:E2; simpl; [discriminate|].
      intros H. injection H as <-. now rewrite (products_error _ _ E2).
    + intros H. injection H as <-.
      destruct (valmap_error _ _ _ E1) as [v [_ Hv]].
      now rewrite (float_of_str_error _ _ Hv).
  - intros H. injection H as <-. now rewrite (dict_update_seq_error _ _ _ E0).
Qed.

Lemma parse_lifetime_error (s : string) :
  str_truthy s = true ->
  (forall seconds, lifetime_seconds s <> Val seconds) ->
  parse_lifetime s = Err lifetime_error.
Proof.
  intros Hs Hno. unfold parse_lifetime. rewrite Hs.
  destruct (lifetime_seconds s) as [seconds|e] eqn:E.
  - now elim (Hno seconds).
  - now rewrite (lifetime_seconds_error _ _ E).
Qed.

(** C5: the resources string "GPU=2 MEM=10e9" parses to the mapping
    {"GPU": 2.0, "MEM": 1e10} (the binary64 numbers that are exactly 2 and
    10^10), "GPU=2,MEM=10e9" parses to the same mapping, and every resources
    string parses as the string obtained from it by writing a space for
    each comma. *)
Theorem resources_comma_space_equivalence :
  float_of_str "2.0" = Val (float_of_int 2) /\
  float_to_Q (float_of_int 2) = Some 2%Q /\
  float_of_str "1e10" = Val (float_of_int 10000000000) /\
  float_to_Q (float_of_int 10000000000) = Some 10000000000%Q /\
  parse_resources "GPU=2 MEM=10e9"
  = Val (Some [("GPU", float_of_int 2); ("MEM", float_of_int 10000000000)]) /\
  parse_resources "GPU=2,MEM=10e9" = parse_resources "GPU=2 MEM=10e9" /\
  forall s, parse_resources s = parse_resources (str_replace "," " " s).
Proof.
  do 6 (split; [vm_compute; reflexivity|]).
  intros s. rewrite !parse_resources_unfold.
  now rewrite pairs_of_replace, str_truthy_replace.
Qed.

Lemma products_map (d : dict float) :
  (forall k, In k (map fst d) -> dict_get k to_secs <> None) ->
  products d
  = Val (map (fun kv => mul (Int (seconds_per (fst kv))) (Float (snd kv))) d).
Proof.
  induction d as [|[k v] d IH]; intros Hk; cbn [products map]; [reflexivity|].
  unfold seconds_per at 1. cbn [fst snd].
  destruct (dict_get k to_secs) as [factor|] eqn:E.
  - rewrite IH; [reflexivity|]. intros k' Hin. apply Hk. now right.
  - elim (Hk k); [now left | exact E].
Qed.

(** The items of "d=1 h=2 m=3 s=4" in any order of iteration. *)
Lemma lifetime_example_any_order (items : dict float) :
  Permutation
    [("d", float_of_int 1); ("h", float_of_int 2);
     ("m", float_of_int 3); ("s", float_of_int 4)] items ->
  rbind (products items) (fun ps => Val (sum ps))
  = Val (Float (float_of_int 93784)).
Proof.
  intros HP.
  pose proof (Permutation_length HP) as Hlen.
  assert (Hd := Permutation_in _ HP (or_introl eq_refl)).
  assert (Hh := Permutation_in _ HP (or_intror (or_introl eq_refl))).
  assert (Hm := Permutation_in _ HP (or_intror (or_intror (or_introl eq_refl)))).
  assert (Hs := Permutation_in _ HP
                  (or_intror (or_intror (or_intror (or_introl eq_refl))))).
  destruct items as [|x1 [|x2 [|x3 [|x4 [|? ?]]]]]; try discriminate Hlen.
  clear HP Hlen.
  cbn [In] in Hd, Hh, Hm, Hs.
  destruct Hd as [Hd|[Hd|[Hd|[Hd|[]]]]]; subst;
    destruct Hh as [Hh|[Hh|[Hh|[Hh|[]]]]]; try discriminate Hh; subst;
    destruct Hm as [Hm|[Hm|[Hm|[Hm|[]]]]]; try discriminate Hm; subst;
    destruct Hs as [Hs|[Hs|[Hs|[Hs|[]]]]]; try discriminate Hs; subst;
    vm_compute; reflexivity.
Qed.

(** C6: the lifetime string "d=1 h=2 m=3 s=4" parses to 93784 seconds (the
    binary64 number that is exactly 93784); the factors are d, days = 86400,
    h, hours = 3600, m, mins, minutes = 60 and s, secs, seconds = 1;
    whenever the tokens of a non-empty lifetime string make a dictionary of
    numeric values under units of the table, the lifetime is the sum of
    factor times value over its items; and for the example the sum is the
    same in whatever order the items are visited. *)
Theorem lifetime_units_sum :
  parse_lifetime "d=1 h=2 m=3 s=4" = Val (Some (Float (float_of_int 93784))) /\
  float_to_Q (float_of_int 93784) = Some 93784%Q /\
  (dict_get "d" to_secs = Some 86400 /\ dict_get "days" to_secs = Some 86400 /\
   dict_get "h" to_secs = Some 3600 /\ dict_get "hours" to_secs = Some 3600 /\
   dict_get "m" to_secs = Some 60 /\ dict_get "mins" to_secs = Some 60 /\
   dict_get "minutes" to_secs = Some 60 /\
   dict_get "s" to_secs = Some 1 /\ dict_get "secs" to_secs = Some 1 /\
   dict_get "seconds" to_secs = Some 1) /\
  (forall s d,
      str_truthy s = true ->
      rbind (dict_of_seq (pairs_of s)) (valmap float_of_str) = Val d ->
      (forall k, In k (map fst d) -> dict_get k to_secs <> None) ->
      parse_lifetime s
      = Val (Some (sum (map (fun kv => mul (Int (seconds_per (fst kv)))
                                           (Float (snd kv))) d)))) /\
  (forall items,
      Permutation
        [("d", float_of_int 1); ("h", float_of_int 2);
         ("m", float_of_int 3); ("s", float_of_int 4)] items ->
      rbind (products items) (fun ps => Val (sum ps))
      = Val (Float (float_of_int 93784))).
Proof.
  split; [vm_compute; reflexivity|].
  split; [vm_compute; reflexivity|].
  split; [repeat split|].
  split; [|exact lifetime_example_any_order].
  intros s d Hs Hd Hk.
  unfold parse_lifetime. rewrite Hs, lifetime_seconds_unfold.
  destruct (dict_of_seq (pairs_of s)) as [pairs|e]; [|discriminate].
  cbn [rbind] in Hd |- *. rewrite Hd. cbn [rbind].
  now rewrite (products_map d Hk).
Qed.

(** The general part of [lifetime_units_sum] at "m=3,s=4": 3 * 60 + 4. *)
Lemma lifetime_units_sum_witness :
  parse_lifetime "m=3,s=4"
  = Val (Some (sum [mul (Int 60) (Float (float_of_int 3));
                    mul (Int 1) (Float (float_of_int 4))])).
Proof.
  apply (proj1 (proj2 (proj2 (proj2 lifetime_units_sum))) "m=3,s=4"
           [("m", float_of_int 3); ("s", float_of_int 4)]);
    [reflexivity | reflexivity |].
  intros k [<-|[<-|[]]]; discriminate.
Defined.

(** C7 as stated fails: in "d=abc d=1" the token "d=abc" has a value that
    [float] rejects, and the string parses to 86400 seconds, because the
    dictionary keeps only the last value stored under "d". *)
Lemma lifetime_repeated_unit_overrides :
  str_truthy "d=abc d=1" = true /\
  has_non_numeric_value "d=abc d=1" /\
  parse_lifetime "d=abc d=1" = Val (Some (Float (float_of_int 86400))).
Proof.
  split; [reflexivity|]. split; [|vm_compute; reflexivity].
  exists "d", "abc", (Exn ValueError None).
  split; [vm_compute; now left | vm_compute; reflexivity].
Qed.

(** C7, amended: a lifetime string with a token whose unit is not in the
    table, or with a token whose value is not numeric and whose unit no
    later token repeats, is non-empty and raises the ValueError "Lifetime
    specifier not understood, see --help for the proper format."; such a
    token is never ignored. *)
Theorem lifetime_malformed_rejected (s : string) :
  has_unknown_unit s \/ has_final_non_numeric_value s ->
  str_truthy s = true /\
  parse_lifetime s
  = Err (Exn ValueError
           (Some "Lifetime specifier not understood, see --help for the proper format.")).
Proof.
  intros H.
  assert (Hs : str_truthy s = true).
  { apply pairs_of_nonempty.
    destruct H as [(k & v & Hin & _) | (pre & k & v & post & e & Heq & _)].
    - intros E. rewrite E in Hin. destruct Hin.
    - rewrite Heq. now destruct pre. }
  split; [exact Hs|].
  apply (parse_lifetime_error s Hs). intros seconds Hsec.
  rewrite lifetime_seconds_unfold in Hsec. unfold dict_of_seq in Hsec.
  destruct (dict_update_seq [] (pairs_of s)) as [pairs|] eqn:E0; [|discriminate].
  cbn [rbind] in Hsec.
  destruct (valmap float_of_str pairs) as [d|] eqn:E1; [|discriminate].
  cbn [rbind] in Hsec.
  destruct (products d) as [ps|] eqn:E2; [|discriminate].
  destruct H as [(k & v & Hin & Hk) | (pre & k & v & post & e & Heq & Hv & Hlast)].
  - apply (products_keys d ps E2 k); [|exact Hk].
    rewrite (valmap_keys _ _ _ E1). apply dict_get_keys.
    exact (dict_update_seq_key _ _ _ k v E0 Hin).
  - rewrite Heq in E0.
    pose proof (dict_update_seq_last pre post _ _ k v E0 Hlast) as Hget.
    destruct (valmap_defined _ _ _ E1 k v (dict_get_In _ _ _ Hget)) as [w Hw].
    congruence.
Qed.

(** [lifetime_malformed_rejected] at "x=5" (unknown unit) and at "s=1 d=abc"
    (a value that is not numeric under a unit that is not repeated). *)
Lemma lifetime_malformed_rejected_witness :
  parse_lifetime "x=5" = Err lifetime_error /\
  parse_lifetime "s=1 d=abc" = Err lifetime_error.
Proof.
  split.
  - apply (lifetime_malformed_rejected "x=5"). left.
    exists "x", "5". split; [vm_compute; now left | reflexivity].
  - apply (lifetime_malformed_rejected "s=1 d=abc"). right.
    exists [["s"; "1"]], "d", "abc", [], (Exn ValueError None).
    split; [reflexivity|]. split; [reflexivity|]. intros v' [].
Defined.

(** ** The launch *)

Lemma record_record (evs1 evs2 : list event) (w : world) :
  record evs2 (record evs1 w) = record (evs1 ++ evs2) w.
Proof. unfold record; simpl. now rewrite app_assoc. Qed.

Lemma record_nil (w : world) : record [] w = w.
Proof. destruct w; unfold record; simpl. now rewrite app_nil_r. Qed.

Lemma for_each_emit {A} (g : A -> event) (xs : list A) (w : world) :
  for_each xs (fun x => emit (g x)) w = (Val tt, record (map g xs) w).
Proof.
  revert w. induction xs as [|x xs IH]; intros w; simpl.
  - unfold ret. now rewrite record_nil.
  - unfold bind, emit at 1. rewrite IH. now rewrite record_record.
Qed.

Lemma validate_cases (o : options) (w : world) :
  validate o w =
  if (1 <? nprocs o) && negb (worker_port o =? 0)
  then (Err exit_1, record [LogError port_error] w)
  else if (1 <? nprocs o) && str_truthy (name o)
       then (Err exit_1, record [LogError name_error] w)
       else (Val tt, w).
Proof.
  unfold validate, bind, when.
  destruct ((1 <? nprocs o) && negb (worker_port o =? 0)); [reflexivity|].
  unfold ret at 1.
  destruct ((1 <? nprocs o) && str_truthy (name o)); reflexivity.
Qed.

(** X1: the check passes exactly when there is one process at most, or
    neither a worker port nor a name; no other option takes part in it. *)
Lemma validate_passes_iff (o : options) (w : world) :
  validate o w = (Val tt, w) <->
  nprocs o <= 1 \/ (worker_port o = 0 /\ name o = "").
Proof.
  rewrite validate_cases.
  destruct (Z.ltb_spec 1 (nprocs o)) as [Hn|Hn]; cbn [andb].
  - destruct (Z.eqb_spec (worker_port o) 0) as [Hp|Hp]; cbn [negb].
    + destruct (name o) eqn:En; cbn [str_truthy].
      * split; [now right | reflexivity].
      * split; [discriminate | intros [H|[_ H]]; [lia | discriminate]].
    + split; [discriminate | intros [H|[H _]]; [lia | contradiction]].
  - split; [now left | reflexivity].
Qed.

Lemma write_pid_file_cases (env : environment) (o : options) (w : world) :
  write_pid_file env o w =
  if str_truthy (pid_file o) then
    match open_w env (pid_file o) with
    | Some e => (Err e, w)
    | None => (Val tt, record (pid_events env o) w)
    end
  else (Val tt, w).
Proof.
  unfold write_pid_file, pid_events, when.
  destruct (str_truthy (pid_file o)); [|reflexivity].
  destruct (open_w env (pid_file o)); [reflexivity|].
  unfold bind, emit. now rewrite record_record.
Qed.

Lemma start_all_spec (o : options) (ns : list nat) (w : world) :
  start_all o ns w
  = (Val tt,
     {| trace := trace w ++ map (start_event o) ns; retired := retired w;
        global_nannies := global_nannies w ++ (if nanny o then ns else []);
        loop_running := loop_running w; now := now w; waits := waits w |}).
Proof.
  unfold start_all. revert w.
  induction ns as [|n ns IH]; intros w; cbn [for_each map].
  - destruct w; unfold ret; simpl. rewrite !app_nil_r.
    destruct (nanny o); now rewrite ?app_nil_r.
  - unfold bind at 1. unfold bind at 1. unfold emit at 1.
    unfold when at 1, global_nannies_append, ret.
    destruct (nanny o) eqn:En; rewrite IH; f_equal; unfold record; simpl;
      f_equal; rewrite <- ?app_assoc; cbn [app]; unfold start_event;
      rewrite ?En; reflexivity.
Qed.

Lemma schedule_retire_spec (lifetime' : option num) (w : world) :
  schedule_retire lifetime' w = (Val tt, record (retire_events lifetime') w).
Proof.
  unfold schedule_retire, retire_events, when, ret.
  destruct lifetime' as [seconds|]; [destruct (num_truthy seconds)|];
    try reflexivity; now rewrite record_nil.
Qed.

Lemma main_launch_steps (env : environment) (o : options) (w : world) :
  main_launch env o w =
  match validate o w with
  | (Err e, w1) => (Err e, w1)
  | (Val _, w1) =>
      match thread_count env o with
      | Err e => (Err e, w1)
      | Val nt =>
          match write_pid_file env o w1 with
          | (Err e, w2) => (Err e, w2)
          | (Val _, w2) =>
              match parse_resources (resources o) with
              | Err e => (Err e, w2)
              | Val res =>
                  match parse_lifetime (lifetime o) with
                  | Err e => (Err e, w2)
                  | Val lt =>
                      (Val (launched_of env o nt res lt),
                       {| trace :=
                            trace w2
                            ++ map (fun n => Construct n (ctor_args env o nt res))
                                   (seq 0 (Z.to_nat (nprocs o)))
                            ++ map (start_event o) (seq 0 (Z.to_nat (nprocs o)))
                            ++ (if opt_truthy (temp_filename o)
                                then [AddCallback Cb_f] else [])
                            ++ [StoreRetired false]
                            ++ retire_events lt;
                          retired := false;
                          global_nannies :=
                            global_nannies w2
                            ++ (if nanny o
                                then seq 0 (Z.to_nat (nprocs o)) else []);
                          loop_running := loop_running w2;
                          now := now w2; waits := waits w2 |})
                  end
              end
          end
      end
  end.
Proof.
  unfold main_launch. unfold bind at 1.
  destruct (validate o w) as [[[]|e] w1]; [|reflexivity].
  unfold bind at 1, lift at 1.
  destruct (thread_count env o) as [nt|e]; [|reflexivity].
  unfold bind at 1.
  destruct (write_pid_file env o w1) as [[[]|e] w2]; [|reflexivity].
  unfold bind at 1, lift at 1.
  destruct (parse_resources (resources o)) as [res|e]; [|reflexivity].
  unfold bind at 1, lift at 1.
  destruct (parse_lifetime (lifetime o)) as [lt|e]; [|reflexivity].
  cbv zeta. unfold bind at 1. rewrite for_each_emit.
  unfold bind at 1. rewrite start_all_spec.
  unfold bind at 1.
  assert (Hw : forall b w0,
             when b (emit (AddCallback Cb_f)) w0
             = (Val tt, record (if b then [AddCallback Cb_f] else []) w0)).
  { intros [|] w0; [reflexivity|]. unfold when, ret. now rewrite record_nil. }
  rewrite Hw. unfold bind at 1, set_retired at 1.
  unfold bind at 1. rewrite schedule_retire_spec.
  unfold ret, launched_of, record. cbn [trace retired global_nannies
                                         loop_running now waits].
  f_equal. f_equal. now rewrite <- !app_assoc.
Qed.

Lemma main_launch_inv (env : environment) (o : options) (w w' : world)
  (l : launched) :
  main_launch env o w = (Val l, w') ->
  exists nt res lt,
    validate o w = (Val tt, w) /\
    thread_count env o = Val nt /\
    parse_resources (resources o) = Val res /\
    parse_lifetime (lifetime o) = Val lt /\
    l = launched_of env o nt res lt /\
    w' = world_after_launch env o nt res lt w.
Proof.
  rewrite main_launch_steps, validate_cases.
  destruct ((1 <? nprocs o) && negb (worker_port o =? 0)); [discriminate|].
  destruct ((1 <? nprocs o) && str_truthy (name o)); [discriminate|].
  destruct (thread_count env o) as [nt|]; [|discriminate].
  rewrite write_pid_file_cases. unfold world_after_launch, launch_events.
  unfold pid_events at 1 2.
  destruct (parse_resources (resources o)) as [res|];
    destruct (parse_lifetime (lifetime o)) as [lt|];
    destruct (str_truthy (pid_file o));
    try destruct (open_w env (pid_file o)); try discriminate;
    intros H; injection H as <- <-; exists nt, res, lt;
    repeat split; unfold record; cbn [trace retired global_nannies
                                         loop_running now waits app];
    f_equal; now rewrite <- ?app_assoc.
Qed.

Lemma In_launch_construct (env : environment) (o : options) (kw : Ctor.t)
  (lt : option num) (n : nat) (a : Ctor.t) :
  In (Construct n a) (launch_events env o kw lt) <->
  a = kw /\ In n (seq 0 (Z.to_nat (nprocs o))).
Proof.
  unfold launch_events, pid_events, retire_events, start_event.
  rewrite !in_app_iff, !in_map_iff. split.
  - intros [H|[H|[H|[H|[H|H]]]]].
    + destruct (str_truthy (pid_file o)); [|destruct H].
      destruct H as [H|[H|[]]]; discriminate.
    + destruct H as (m & E & Hin). injection E as -> ->. now split.
    + destruct H as (m & E & _). discriminate.
    + destruct (opt_truthy (temp_filename o)); [|destruct H].
      destruct H as [H|[]]; discriminate.
    + destruct H as [H|[]]; discriminate.
    + destruct lt as [seconds|]; [|destruct H].
      destruct (num_truthy seconds); [|destruct H].
      destruct H as [H|[]]; discriminate.
  - intros [-> Hin]. right. left. now exists n.
Qed.



(** C8: with [nthreads] unset (zero), an invocation that reaches the loop
    has constructed [nprocs] instances, each with [ncores] equal to
    [_ncores // nprocs]; the defaults with two processes on eight cores reach
    the loop with two instances of four threads. *)
Theorem default_threads_per_process :
  (forall env o w l w',
      nthreads o = 0 ->
      main_launch env o w = (Val l, w') ->
      List.length (nannies l) = Z.to_nat (nprocs o) /\
      (forall n, In n (nannies l) -> In (Construct n (kwargs l)) (trace w')) /\
      (forall n a, In (Construct n a) (trace w') ->
                   In (Construct n a) (trace w) \/
                   Ctor.ncores a = _ncores env / nprocs o)) /\
  (exists l w',
      main_launch eight_cores two_processes initial_world = (Val l, w') /\
      nannies l = [0%nat; 1%nat] /\
      Ctor.ncores (kwargs l) = 4 /\
      filter is_construct (trace w')
      = [Construct 0 (kwargs l); Construct 1 (kwargs l)]).
Proof.
  split.
  - intros env o w l w' Hz H.
    destruct (main_launch_inv env o w w' l H)
      as (nt & res & lt & _ & Hnt & _ & _ & -> & ->).
    unfold thread_count in Hnt. rewrite Hz in Hnt. cbn [Z.eqb] in Hnt.
    unfold floordiv in Hnt. destruct (nprocs o =? 0); [discriminate|].
    injection Hnt as <-.
    cbn [launched_of nannies kwargs world_after_launch trace].
    split; [apply length_seq|]. split.
    + intros n Hin. apply in_app_iff. right.
      apply In_launch_construct. now split.
    + intros n a Hin. apply in_app_iff in Hin. destruct Hin as [Hin|Hin].
      * now left.
      * right. apply In_launch_construct in Hin. now destruct Hin as [-> _].
  - eexists. eexists. split; [vm_compute; reflexivity|].
    split; [reflexivity|]. split; reflexivity.
Qed.

(** The general part of [default_threads_per_process] on eight cores with
    two processes. *)
Lemma default_threads_per_process_witness :
  exists l w',
    main_launch eight_cores two_processes initial_world = (Val l, w') /\
    List.length (nannies l) = 2%nat /\
    In (Construct 1 (kwargs l)) (trace w').
Proof.
  destruct (main_launch eight_cores two_processes initial_world)
    as [[l|e] w'] eqn:E; [|vm_compute in E; discriminate].
  exists l, w'. split; [reflexivity|].
  destruct (proj1 default_threads_per_process eight_cores two_processes
              initial_world l w' eq_refl E) as (Hlen & Hin & _).
  split; [exact Hlen|]. apply Hin.
  vm_compute in E. injection E as <- _. right. now left.
Defined.

(** C10: when the --resources option is the empty string, every instance is
    constructed with [resources=None]; an instance constructed with a
    mapping comes from a non-empty option.  (The empty mapping does occur:
    it is what a string of blanks gives.) *)
Theorem empty_resources_is_none :
  (forall env o w l w',
      resources o = "" ->
      main_launch env o w = (Val l, w') ->
      Ctor.resources (kwargs l) = None /\
      (forall n a, In (Construct n a) (trace w') ->
                   In (Construct n a) (trace w) \/ Ctor.resources a = None)) /\
  (forall env o w l w' m,
      main_launch env o w = (Val l, w') ->
      Ctor.resources (kwargs l) = Some m ->
      resources o <> "") /\
  parse_resources "" = Val None /\
  parse_resources " " = Val (Some []).
Proof.
  split; [|split; [|split; reflexivity]].
  - intros env o w l w' He H.
    destruct (main_launch_inv env o w w' l H)
      as (nt & res & lt & _ & _ & Hres & _ & -> & ->).
    rewrite He in Hres. injection Hres as <-.
    split; [reflexivity|].
    intros n a Hin. cbn [world_after_launch trace] in Hin.
    apply in_app_iff in Hin. destruct Hin as [Hin|Hin]; [now left|].
    right. apply In_launch_construct in Hin. now destruct Hin as [-> _].
  - intros env o w l w' m H Hm He.
    destruct (main_launch_inv env o w w' l H)
      as (nt & res & lt & _ & _ & Hres & _ & -> & _).
    rewrite He in Hres. injection Hres as <-. discriminate.
Qed.

(** [empty_resources_is_none] on the defaults with two processes, and on
    one process started with "GPU=2 MEM=10e9". *)
Lemma empty_resources_is_none_witness :
  (exists l w',
      main_launch eight_cores two_processes initial_world = (Val l, w') /\
      Ctor.resources (kwargs l) = None) /\
  resources one_process_gpu <> "".
Proof.
  split.
  - destruct (main_launch eight_cores two_processes initial_world)
      as [[l|e] w'] eqn:E; [|vm_compute in E; discriminate].
    exists l, w'. split; [reflexivity|].
    exact (proj1 (proj1 empty_resources_is_none eight_cores two_processes
                    initial_world l w' eq_refl E)).
  - destruct (main_launch eight_cores one_process_gpu initial_world)
      as [[l|e] w'] eqn:E; [|vm_compute in E; discriminate].
    apply (proj1 (proj2 empty_resources_is_none) eight_cores one_process_gpu
             initial_world l w'
             [("GPU", float_of_int 2); ("MEM", float_of_int 10000000000)] E).
    vm_compute in E. now injection E as <- _.
Defined.

(** ** Retirement and the waiting loop *)

(** C3: when the launch has scheduled [retire] (the lifetime is truthy) the
    flag starts false; when the timer fires with at least one instance,
    [retire] issues [retire_workers] to the scheduler of the first instance
    with [remove=False], stores [True] in the flag after that call, and
    returns; from then on the condition of the loop of [run] is false and
    [run] returns, whatever the statuses are, while before it the loop goes
    on as long as no instance is closed. *)
Theorem lifetime_retires_and_ends_wait (nanny : bool) (first : nat)
  (rest : list nat) (look : snapshot) (w : world) :
  retired w = false ->
  let nannies := first :: rest in
  (forall env o w0 l w1 seconds,
      main_launch env o w0 = (Val l, w1) ->
      lifetime_s l = Some seconds -> num_truthy seconds = true ->
      In (AddCallback (Cb_retire seconds)) (trace w1) /\ retired w1 = false) /\
  (forall look0,
      (forall n, In n nannies -> Inst.status (look0 n) <> Closed) ->
      run nannies look0 w = Yield_sleep (2 # 10)) /\
  exists w',
    retire nanny nannies look w = (Val tt, w') /\
    trace w'
    = trace w
      ++ [LogInfo "Retiring worker...";
          RetireWorkers (Inst.scheduler_ip (look first))
                        (Inst.scheduler_port (look first))
                        (retire_list nanny nannies look) false;
          StoreRetired true;
          LogInfo "Worker retired"] /\
    retired w' = true /\
    (forall look', run_condition nannies look' w' = false) /\
    (forall look', run nannies look' w' = Return).
Proof.
  intros Hr nannies. split; [|split].
  - intros env o w0 l w1 seconds H Hl Ht.
    destruct (main_launch_inv env o w0 w1 l H)
      as (nt & res & lt & _ & _ & _ & _ & -> & ->).
    cbn [launched_of lifetime_s] in Hl. subst lt.
    split; [|reflexivity].
    cbn [world_after_launch trace]. unfold launch_events, retire_events.
    cbv zeta. rewrite Ht, !in_app_iff. do 6 right. now left.
  - intros look0 Hopen. unfold run, run_condition. rewrite Hr. cbn [negb].
    rewrite andb_true_r.
    assert (Hall : forallb (fun n => negb (status_eqb (Inst.status (look0 n)) Closed))
                           nannies = true).
    { apply forallb_forall. intros n Hin. specialize (Hopen n Hin).
      destruct (Inst.status (look0 n)); [reflexivity | reflexivity | now elim Hopen]. }
    now rewrite Hall.
  - exists (snd (retire nanny (first :: rest) look w)).
    split; [reflexivity|]. split.
    + unfold retire_list, nannies. cbn. rewrite <- !app_assoc. reflexivity.
    + split; [reflexivity|].
      assert (Hc : forall look', run_condition (first :: rest) look'
                      (snd (retire nanny (first :: rest) look w)) = false).
      { intros look'. unfold run_condition.
        change (retired (snd (retire nanny (first :: rest) look w))) with true.
        apply andb_false_r. }
      split; [exact Hc|].
      intros look'. unfold run. subst nannies. now rewrite (Hc look').
Qed.

(** [lifetime_retires_and_ends_wait] on two running nannies: the loop goes
    on before [retire] and ends after it, the statuses being the same. *)
Lemma lifetime_retires_and_ends_wait_witness :
  run [0%nat; 1%nat] all_running initial_world = Yield_sleep (2 # 10) /\
  run [0%nat; 1%nat] all_running
      (snd (retire true [0%nat; 1%nat] all_running initial_world)) = Return.
Proof.
  destruct (lifetime_retires_and_ends_wait true 0%nat [1%nat] all_running
              initial_world eq_refl) as (_ & Hbefore & w' & Hret & _ & _ & _ & Hafter).
  split.
  - apply Hbefore. intros n _. discriminate.
  - rewrite Hret. apply Hafter.
Defined.

(** ** The signal handler *)

Lemma rmtree_swallowed (fs : option string -> option exn)
  (dir : option string) (w : world) :
  (forall e, fs dir = Some e ->
             exn_cls e = OSError \/ exn_cls e = IOError \/ exn_cls e = TypeError) ->
  try_except (rmtree fs dir) [OSError; IOError; TypeError] (ret tt) w
  = (Val tt, record [Rmtree dir] w).
Proof.
  intros H. unfold try_except, rmtree, bind, emit.
  destruct (fs dir) as [e|]; [|reflexivity].
  unfold raise, caught_by.
  destruct (H e eq_refl) as [E|[E|E]]; rewrite E; reflexivity.
Qed.

Lemma cleanup_loop (look : snapshot) (fs : option string -> option exn)
  (ns : list nat) (w : world) :
  (forall n e, In n ns -> fs (Inst.worker_dir (look n)) = Some e ->
               exn_cls e = OSError \/ exn_cls e = IOError \/ exn_cls e = TypeError) ->
  for_each ns (fun nanny =>
    try_except (rmtree fs (Inst.worker_dir (look nanny)))
               [OSError; IOError; TypeError] (ret tt)) w
  = (Val tt, record (map (fun n => Rmtree (Inst.worker_dir (look n))) ns) w).
Proof.
  revert w. induction ns as [|n ns IH]; intros w H; cbn [for_each map].
  - unfold ret. now rewrite record_nil.
  - unfold bind. rewrite rmtree_swallowed.
    + rewrite IH; [now rewrite record_record|].
      intros m e Hin. apply H. now right.
    + intros e. apply H. now left.
Qed.

(** C4: if deleting a tracked nanny's working directory fails only with
    [OSError], [IOError] or [TypeError], the handler attempts the deletion
    for every tracked nanny in order and none of the failures leaves it;
    then, when the loop is running, it schedules [loop.stop] and returns,
    and otherwise it raises [SystemExit(1)]. *)
Theorem handle_signal_cleans_then_stops (look : snapshot)
  (fs : option string -> option exn) (w : world) :
  (forall n e, In n (global_nannies w) ->
               fs (Inst.worker_dir (look n)) = Some e ->
               exn_cls e = OSError \/ exn_cls e = IOError \/ exn_cls e = TypeError) ->
  handle_signal look fs w
  = if loop_running w
    then (Val tt,
          record (map Rmtree (tracked_dirs look w) ++ [AddCallback Cb_loop_stop]) w)
    else (Err (Exn (SystemExit 1) None),
          record (map Rmtree (tracked_dirs look w)) w).
Proof.
  intros H. unfold handle_signal, tracked_dirs.
  unfold bind at 1, gets at 1. unfold bind at 1.
  rewrite (cleanup_loop look fs (global_nannies w) w H).
  unfold bind at 1, gets at 1. cbn [record loop_running].
  rewrite map_map.
  destruct (loop_running w); [|reflexivity].
  unfold emit. now rewrite record_record.
Qed.

(** [handle_signal_cleans_then_stops] with two tracked nannies whose
    directories cannot be deleted: with the loop running the stop is
    scheduled, without it the process exits with status 1. *)
Lemma handle_signal_cleans_then_stops_witness :
  handle_signal all_running failing_fs (two_tracked true)
  = (Val tt,
     record [Rmtree (Some "/tmp/nanny-0"); Rmtree (Some "/tmp/nanny-0");
             AddCallback Cb_loop_stop] (two_tracked true)) /\
  handle_signal all_running failing_fs (two_tracked false)
  = (Err (Exn (SystemExit 1) None),
     record [Rmtree (Some "/tmp/nanny-0"); Rmtree (Some "/tmp/nanny-0")]
            (two_tracked false)).
Proof.
  split.
  - apply (handle_signal_cleans_then_stops all_running failing_fs
             (two_tracked true)).
    intros n e _ He. injection He as <-. now left.
  - apply (handle_signal_cleans_then_stops all_running failing_fs
             (two_tracked false)).
    intros n e _ He. injection He as <-. now left.
Defined.

(** ** Teardown *)

Lemma Qlt_bool_false (a b : Q) : Qlt_bool a b = false <-> (b <= a)%Q.
Proof.
  unfold Qlt_bool. rewrite negb_false_iff. apply Qle_bool_iff.
Qed.

Section Waiting.

Variable nannies : list nat.
Variable looks : nat -> snapshot.
Variable late : nat -> Q.
Hypothesis late_nonneg : forall k, (0 <= late k)%Q.

Lemma wait_children_enough (start : Q) (n : nat) :
  forall w : world,
    (start + 1 <= now w + inject_Z (Z.of_nat n) * (1 # 10))%Q ->
    exists sleeps w',
      (sleeps <= n)%nat /\
      (forall fuel, (n < fuel)%nat ->
                    wait_children fuel nannies looks late start w = Some w') /\
      trace w' = trace w ++ repeat (Sleep (1 # 10)) sleeps /\
      waits w' = (waits w + sleeps)%nat /\
      (any_alive nannies (looks (waits w')) = false \/ (start + 1 <= now w')%Q).
Proof using late_nonneg.
  induction n as [|n IH]; intros w Hw.
  - exists 0%nat, w.
    assert (Hend : (start + 1 <= now w)%Q).
    { change (inject_Z (Z.of_nat 0)) with 0%Q in Hw. lra. }
    split; [lia|]. split.
    + intros [|fuel] Hf; [lia|]. cbn [wait_children].
      rewrite (proj2 (Qlt_bool_false _ _) Hend). now rewrite andb_false_r.
    + cbn [repeat]. rewrite app_nil_r, Nat.add_0_r. auto.
  - destruct (any_alive nannies (looks (waits w))
              && Qlt_bool (now w) (start + 1)) eqn:Ec.
    + destruct (IH (snd (sleep late (1 # 10) w))) as (sleeps & w' & Hle & Hrun & Htr & Hwt & Hend).
      { cbn [sleep snd now].
        rewrite Nat2Z.inj_succ, <- Z.add_1_r, inject_Z_plus in Hw.
        specialize (late_nonneg (waits w)).
        change (inject_Z 1) with 1%Q in Hw. lra. }
      exists (S sleeps), w'. split; [lia|]. split; [|split; [|split]].
      * intros [|fuel] Hf; [lia|]. cbn [wait_children]. rewrite Ec.
        apply Hrun. lia.
      * rewrite Htr. cbn [sleep snd trace repeat]. now rewrite <- app_assoc.
      * rewrite Hwt. cbn [sleep snd waits]. lia.
      * exact Hend.
    + exists 0%nat, w. split; [lia|]. split; [|split; [|split]].
      * intros [|fuel] Hf; [lia|]. cbn [wait_children]. now rewrite Ec.
      * cbn [repeat]. now rewrite app_nil_r.
      * lia.
      * apply andb_false_iff in Ec.
        destruct Ec as [Ec|Ec]; [now left | right].
        now apply Qlt_bool_false.
Qed.

Lemma main_teardown_total (fuel : nat) (nanny : bool) (a : answer) (w : world) :
  (11 <= fuel)%nat ->
  exists r, main_teardown fuel nanny nannies looks late a w = Some r.
Proof using late_nonneg.
  intros Hf. unfold main_teardown.
  destruct ((emit NewLoop;; f nanny nannies (looks (waits w)) a) w)
    as [[[]|e] w1]; [|eauto].
  destruct (terminate_children nanny nannies (looks (waits w1)) w1)
    as [[[]|e] w2]; [|eauto].
  destruct nanny; [|eauto].
  destruct (wait_children_enough (now w2) 10 w2) as (sleeps & w3 & _ & Hrun & _).
  { change (inject_Z (Z.of_nat 10)) with 10%Q. lra. }
  rewrite (Hrun fuel); [eauto | lia].
Qed.

End Waiting.

(** C9: whatever the children do ([looks] is arbitrary) and however late
    the process comes back from each sleep, the waiting loop started at the
    present time ends after at most ten sleeps of 0.1 s: eleven units of
    fuel are always enough, the loop has done nothing but sleep, and at its
    end no child is alive or one second has passed; so the teardown it is
    part of always comes to an end. *)
Theorem wait_for_children_bounded (nannies : list nat)
  (looks : nat -> snapshot) (late : nat -> Q) (w : world) :
  (forall k, (0 <= late k)%Q) ->
  (exists sleeps w',
      (sleeps <= 10)%nat /\
      (forall fuel, (11 <= fuel)%nat ->
                    wait_children fuel nannies looks late (now w) w = Some w') /\
      trace w' = trace w ++ repeat (Sleep (1 # 10)) sleeps /\
      waits w' = (waits w + sleeps)%nat /\
      (any_alive nannies (looks (waits w')) = false \/ (now w + 1 <= now w')%Q)) /\
  (forall fuel nanny a,
      (11 <= fuel)%nat ->
      exists r, main_teardown fuel nanny nannies looks late a w = Some r).
Proof.
  intros Hlate. split.
  - destruct (wait_children_enough nannies looks late Hlate (now w) 10 w)
      as (sleeps & w' & Hle & Hrun & Htr & Hwt & Hend).
    { change (inject_Z (Z.of_nat 10)) with 10%Q. lra. }
    exists sleeps, w'. repeat split; auto.
  - intros fuel nanny a Hf. now apply main_teardown_total.
Qed.

(** [wait_for_children_bounded] with two children that never exit and an
    exact clock: the loop ends, after sleeping and nothing else. *)
Lemma wait_for_children_bounded_witness :
  exists sleeps w',
    (sleeps <= 10)%nat /\
    wait_children 11 [0%nat; 1%nat] never_exit punctual 0 initial_world = Some w' /\
    trace w' = repeat (Sleep (1 # 10)) sleeps.
Proof.
  destruct (wait_for_children_bounded [0%nat; 1%nat] never_exit punctual
              initial_world (fun _ => Qle_refl 0))
    as ((sleeps & w' & Hle & Hrun & Htr & _) & _).
  exists sleeps, w'. split; [exact Hle|]. split; [|exact Htr].
  apply Hrun. apply le_n.
Defined.

(** When the calls are not answered within two seconds, [with_timeout] raises
    [TimeoutError] two seconds after they were issued; [f] has no handler,
    [loop2.run_sync(f)] raises it again, and [main] ends there: no child is
    terminated and no instance is stopped. *)
Lemma unregister_timeout_escapes (fuel : nat) (first : nat) (rest : list nat)
  (looks : nat -> snapshot) (late : nat -> Q) (a : answer) (w : world) :
  unanswered a = true ->
  main_teardown fuel true (first :: rest) looks late a w
  = Some (Err (Exn TimeoutError None),
          {| trace := trace w
                      ++ unregister_events (first :: rest) (looks (waits w));
             retired := retired w; global_nannies := global_nannies w;
             loop_running := loop_running w;
             now := (now w + 2)%Q; waits := S (waits w) |}).
Proof.
  intros Ha. unfold main_teardown, f, when.
  unfold bind at 1, emit at 1. unfold bind at 1.
  rewrite for_each_emit, record_record.
  assert (Hto : forall w0, with_timeout 2 a w0
                = (Err (Exn TimeoutError None),
                   {| trace := trace w0; retired := retired w0;
                      global_nannies := global_nannies w0;
                      loop_running := loop_running w0;
                      now := (now w0 + 2)%Q; waits := S (waits w0) |})).
  { intros w0. unfold with_timeout.
    destruct a as [t|t e|]; cbn [unanswered] in Ha;
      try (apply negb_true_iff in Ha; rewrite Ha); reflexivity. }
  rewrite Hto. reflexivity.
Qed.

(** C2 on the code: one nanny with a live child and a known worker address,
    and a scheduler that never answers.  The deadline of two seconds passes,
    [TimeoutError] leaves [main], and the child, still alive, is not
    terminated; when the scheduler answers in half a second the child is
    terminated. *)
Theorem unregister_timeout_skips_termination :
  (exists w',
      main_teardown 11 true [0%nat] never_exit punctual Never initial_world
      = Some (Err (Exn TimeoutError None), w') /\
      trace w' = [NewLoop; Unregister (Some "tcp://127.0.0.1:40000") true] /\
      (now w' == 2)%Q /\
      any_alive [0%nat] (never_exit (waits w')) = true /\
      filter is_terminate (trace w') = []) /\
  (exists w',
      main_teardown 11 true [0%nat] never_exit punctual (Completes (1 # 2))
                    initial_world
      = Some (Val tt, w') /\
      filter is_terminate (trace w') = [Terminate 0]).
Proof.
  split.
  - eexists. split.
    + apply (unregister_timeout_escapes 11 0%nat [] never_exit punctual Never
               initial_world eq_refl).
    + repeat split; reflexivity.
  - eexists. split; [vm_compute; reflexivity | reflexivity].
Qed.


(* ================================================================== *)
(** * Further properties of the launcher *)
(* ================================================================== *)

(** ** The launch: failures, threads, ports, callbacks *)

(** X2: when [main] fails before the loop, it has constructed and started
    nothing, tracked no nanny, scheduled no callback and not touched the
    flag; all it may have done is log the error of a rejected option, or
    write the pid file and register its removal, which is what remains when
    the resources or the lifetime are rejected after the pid-file block. *)
Theorem launch_failure_leaves_nothing (env : environment) (o : options)
  (w w' : world) (e : exn) :
  main_launch env o w = (Err e, w') ->
  retired w' = retired w /\
  global_nannies w' = global_nannies w /\
  (trace w' = trace w \/
   trace w' = trace w ++ [LogError port_error] \/
   trace w' = trace w ++ [LogError name_error] \/
   trace w' = trace w ++ pid_events env o).
Proof.
  rewrite main_launch_steps, validate_cases.
  destruct ((1 <? nprocs o) && negb (worker_port o =? 0)).
  { intros H. injection H as _ <-. cbn. repeat split. right. now left. }
  destruct ((1 <? nprocs o) && str_truthy (name o)).
  { intros H. injection H as _ <-. cbn. repeat split. right. right. now left. }
  destruct (thread_count env o) as [nt|e0].
  2:{ intros H. injection H as _ <-. repeat split. now left. }
  rewrite write_pid_file_cases.
  destruct (str_truthy (pid_file o)) eqn:Ep.
  - destruct (open_w env (pid_file o)) as [e1|].
    { intros H. injection H as _ <-. repeat split. now left. }
    destruct (parse_resources (resources o)) as [res|e2].
    2:{ intros H. injection H as _ <-. cbn. repeat split. now do 3 right. }
    destruct (parse_lifetime (lifetime o)) as [lt|e3]; [discriminate|].
    intros H. injection H as _ <-. cbn. repeat split. now do 3 right.
  - destruct (parse_resources (resources o)) as [res|e2].
    2:{ intros H. injection H as _ <-. repeat split. now left. }
    destruct (parse_lifetime (lifetime o)) as [lt|e3]; [discriminate|].
    intros H. injection H as _ <-. repeat split. now left.
Qed.

(** [launch_failure_leaves_nothing] on one process with a pid file and the
    resources "GPU": the launch raises [ValueError] and the pid file stays
    written. *)
Lemma launch_failure_leaves_nothing_witness :
  fst (main_launch eight_cores pid_file_bad_resources initial_world)
  = Err (Exn ValueError None) /\
  global_nannies (snd (main_launch eight_cores pid_file_bad_resources
                                   initial_world)) = [] /\
  trace (snd (main_launch eight_cores pid_file_bad_resources initial_world))
  = [WritePid "/tmp/worker.pid" 4242; AtexitRegister "/tmp/worker.pid"].
Proof.
  destruct (main_launch eight_cores pid_file_bad_resources initial_world)
    as [r w'] eqn:E.
  assert (Hr : r = Err (Exn ValueError None)).
  { change r with (fst (r, w')). rewrite <- E. vm_compute. reflexivity. }
  subst r.
  destruct (launch_failure_leaves_nothing eight_cores pid_file_bad_resources
              initial_world w' (Exn ValueError None) E) as (_ & Hg & _).
  split; [reflexivity|]. split; [exact Hg|].
  change w' with (snd (Err (Exn ValueError None) : result launched, w')).
  rewrite <- E. vm_compute. reflexivity.
Defined.

(** X3: with [nthreads] unset and [nprocs = 0] the division of line 100
    raises [ZeroDivisionError]: [main] ends there and has done nothing. *)
Theorem zero_processes_divide_by_zero (env : environment) (o : options)
  (w : world) :
  nthreads o = 0 -> nprocs o = 0 ->
  main_launch env o w = (Err (Exn ZeroDivisionError None), w) /\
  forall during fuel looks late a,
    main env o during fuel looks late a w
    = Some (Err (Exn ZeroDivisionError None), w).
Proof.
  intros Ht Hp.
  assert (H : main_launch env o w = (Err (Exn ZeroDivisionError None), w)).
  { rewrite main_launch_steps, validate_cases. unfold thread_count, floordiv.
    rewrite Ht, Hp. reflexivity. }
  split; [exact H|]. intros. unfold main. now rewrite H.
Qed.

Lemma zero_processes_divide_by_zero_witness :
  main_launch eight_cores no_process initial_world
  = (Err (Exn ZeroDivisionError None), initial_world).
Proof.
  apply (zero_processes_divide_by_zero eight_cores no_process initial_world);
    reflexivity.
Defined.

(** X4: an explicit (non-zero) [nthreads] is given unchanged to every
    instance, whatever the number of cores and of processes. *)
Theorem explicit_threads_kept (env : environment) (o : options) (w w' : world)
  (l : launched) :
  nthreads o <> 0 ->
  main_launch env o w = (Val l, w') ->
  Ctor.ncores (kwargs l) = nthreads o /\
  (forall n, In n (nannies l) -> In (Construct n (kwargs l)) (trace w')) /\
  (forall n a, In (Construct n a) (trace w') ->
               In (Construct n a) (trace w) \/ Ctor.ncores a = nthreads o).
Proof.
  intros Hz H.
  destruct (main_launch_inv env o w w' l H)
    as (nt & res & lt & _ & Hnt & _ & _ & -> & ->).
  unfold thread_count in Hnt.
  destruct (Z.eqb_spec (nthreads o) 0) as [E|_]; [contradiction|].
  injection Hnt as <-.
  cbn [launched_of nannies kwargs world_after_launch trace].
  split; [reflexivity|]. split.
  - intros n Hin. apply in_app_iff. right. apply In_launch_construct. now split.
  - intros n a Hin. apply in_app_iff in Hin. destruct Hin as [Hin|Hin].
    + now left.
    + right. apply In_launch_construct in Hin. now destruct Hin as [-> _].
Qed.

Lemma explicit_threads_kept_witness :
  exists l w',
    main_launch eight_cores two_processes_four_threads initial_world
    = (Val l, w') /\
    Ctor.ncores (kwargs l) = 4.
Proof.
  destruct (main_launch eight_cores two_processes_four_threads initial_world)
    as [[l|e] w'] eqn:E; [|vm_compute in E; discriminate].
  exists l, w'. split; [reflexivity|].
  apply (explicit_threads_kept eight_cores two_processes_four_threads
           initial_world w' l); [discriminate | exact E].
Defined.


(** X6: when [main] reaches the loop it has, in this order and nothing
    else: written the pid file (if asked), constructed the instances
    [0 .. nprocs-1] with one and the same arguments, started each of them
    once in the same order, scheduled the writer of the temp file (if
    asked), created the flag with [False], and scheduled [retire] (if the
    lifetime is truthy); the nannies, and only nannies, are tracked for the
    signal handler. *)
Theorem launch_constructs_then_starts (env : environment) (o : options)
  (w w' : world) (l : launched) :
  main_launch env o w = (Val l, w') ->
  nannies l = seq 0 (Z.to_nat (nprocs o)) /\
  trace w'
  = trace w
    ++ pid_events env o
    ++ map (fun n => Construct n (kwargs l)) (nannies l)
    ++ map (start_event o) (nannies l)
    ++ (if opt_truthy (temp_filename o) then [AddCallback Cb_f] else [])
    ++ [StoreRetired false]
    ++ retire_events (lifetime_s l) /\
  retired w' = false /\
  global_nannies w' = global_nannies w ++ (if nanny o then nannies l else []).
Proof.
  intros H.
  destruct (main_launch_inv env o w w' l H)
    as (nt & res & lt & _ & _ & _ & _ & -> & ->).
  repeat split.
Qed.

Lemma launch_constructs_then_starts_witness :
  exists l w',
    main_launch eight_cores two_workers initial_world = (Val l, w') /\
    trace w'
    = [Construct 0 (kwargs l); Construct 1 (kwargs l);
       Start 0 None 0; Start 1 None 0; StoreRetired false] /\
    global_nannies w' = [].
Proof.
  destruct (main_launch eight_cores two_workers initial_world)
    as [[l|e] w'] eqn:E; [|vm_compute in E; discriminate].
  exists l, w'. split; [reflexivity|].
  destruct (launch_constructs_then_starts eight_cores two_workers
              initial_world w' l E) as (Hn & Ht & _ & Hg).
  rewrite Ht, Hg, Hn. split; [|reflexivity].
  vm_compute in E. injection E as <- _. reflexivity.
Defined.

(** X7: [retire] is scheduled by the launch if and only if the lifetime
    parsed to a number that is truthy; an empty lifetime, a lifetime of
    blanks and a lifetime of zero seconds schedule nothing. *)
Theorem retire_scheduled_iff (env : environment) (o : options) (w w' : world)
  (l : launched) (seconds : num) :
  main_launch env o w = (Val l, w') ->
  (In (AddCallback (Cb_retire seconds)) (trace w') <->
   In (AddCallback (Cb_retire seconds)) (trace w) \/
   (lifetime_s l = Some seconds /\ num_truthy seconds = true)).
Proof.
  intros H.
  destruct (main_launch_inv env o w w' l H)
    as (nt & res & lt & _ & _ & _ & _ & -> & ->).
  cbn [launched_of lifetime_s world_after_launch trace].
  unfold launch_events, pid_events, start_event, retire_events. cbv zeta.
  rewrite !in_app_iff, !in_map_iff. split.
  - intros [Hin|[Hin|[Hin|[Hin|[Hin|[Hin|Hin]]]]]]; [now left | | | | | |].
    + destruct (str_truthy (pid_file o)); [|destruct Hin].
      destruct Hin as [Hin|[Hin|[]]]; discriminate.
    + destruct Hin as (m & E & _). discriminate.
    + destruct Hin as (m & E & _). discriminate.
    + destruct (opt_truthy (temp_filename o)); [|destruct Hin].
      destruct Hin as [Hin|[]]; discriminate.
    + destruct Hin as [Hin|[]]; discriminate.
    + destruct lt as [s|]; [|destruct Hin].
      destruct (num_truthy s) eqn:Es; [|destruct Hin].
      destruct Hin as [Hin|[]]. injection Hin as <-. right. now split.
  - intros [Hin|[-> Ht]]; [now left|].
    rewrite Ht. do 6 right. now left.
Qed.

Lemma retire_scheduled_iff_witness :
  exists l w',
    main_launch eight_cores lifetime_zero initial_world = (Val l, w') /\
    lifetime_s l = Some (Float (S754_zero false)) /\
    ~ In (AddCallback (Cb_retire (Float (S754_zero false)))) (trace w').
Proof.
  destruct (main_launch eight_cores lifetime_zero initial_world)
    as [[l|e] w'] eqn:E; [|vm_compute in E; discriminate].
  exists l, w'. split; [reflexivity|].
  pose proof (retire_scheduled_iff eight_cores lifetime_zero initial_world
                w' l (Float (S754_zero false)) E) as Hiff.
  vm_compute in E. injection E as <- _.
  split; [reflexivity|].
  intros Hin. apply Hiff in Hin. destruct Hin as [[]|[_ Ht]]. discriminate.
Defined.

(** X8: when [main] reaches the loop with more than one process, the name
    of every instance is empty and the worker port is 0 (in nanny mode it is
    the [worker_port] given to each nanny), while every instance is started
    on one port: the nanny port in nanny mode, which nothing has checked, and
    the worker port 0 otherwise. *)
Theorem several_processes_ports (env : environment) (o : options)
  (w w' : world) (l : launched) :
  1 < nprocs o ->
  main_launch env o w = (Val l, w') ->
  Ctor.name (kwargs l) = "" /\
  Ctor.worker_port (kwargs l) = (if nanny o then Some 0 else None) /\
  (forall n, In n (nannies l) ->
     In (Start n (if opt_truthy (host o) then host o else None)
               (if nanny o then nanny_port o else 0)) (trace w')).
Proof.
  intros Hn H.
  destruct (main_launch_inv env o w w' l H)
    as (nt & res & lt & Hv & _ & _ & _ & -> & ->).
  rewrite validate_cases in Hv. apply Z.ltb_lt in Hn. rewrite Hn in Hv.
  cbn [andb] in Hv.
  destruct (Z.eqb_spec (worker_port o) 0) as [Hp|Hp]; [|discriminate].
  cbn [negb] in Hv. destruct (name o) eqn:En; [|discriminate].
  cbn [launched_of kwargs nannies ctor_args Ctor.name Ctor.worker_port].
  rewrite En, Hp. split; [reflexivity|]. split; [reflexivity|].
  intros n Hin. cbn [world_after_launch trace]. unfold launch_events.
  cbv zeta. rewrite !in_app_iff, !in_map_iff. do 3 right. left.
  exists n. split; [|exact Hin]. unfold start_event. now rewrite Hp.
Qed.

Lemma several_processes_ports_witness :
  exists l w',
    main_launch eight_cores two_nannies_port_9000 initial_world = (Val l, w') /\
    In (Start 0 None 9000) (trace w') /\ In (Start 1 None 9000) (trace w').
Proof.
  destruct (main_launch eight_cores two_nannies_port_9000 initial_world)
    as [[l|e] w'] eqn:E; [|vm_compute in E; discriminate].
  exists l, w'. split; [reflexivity|].
  destruct (several_processes_ports eight_cores two_nannies_port_9000
              initial_world w' l eq_refl E) as (_ & _ & Hs).
  vm_compute in E. injection E as <- _.
  split; apply Hs; [now left | right; now left].
Defined.

(** X9: after a launch from a process that tracked nothing, the tracked
    nannies are the instances in nanny mode and none in worker mode; so in
    worker mode the signal handler deletes nothing, whatever the file system
    does: it only schedules the stop of a running loop, or exits with
    status 1. *)
Theorem signal_after_launch (env : environment) (o : options) (w w' : world)
  (l : launched) :
  global_nannies w = [] ->
  main_launch env o w = (Val l, w') ->
  global_nannies w' = (if nanny o then nannies l else []) /\
  (nanny o = false ->
   forall look fs,
     handle_signal look fs w'
     = if loop_running w
       then (Val tt, record [AddCallback Cb_loop_stop] w')
       else (Err (Exn (SystemExit 1) None), w')).
Proof.
  intros Hg H.
  destruct (main_launch_inv env o w w' l H)
    as (nt & res & lt & _ & _ & _ & _ & -> & ->).
  unfold world_after_launch.
  cbn [global_nannies launched_of nannies].
  rewrite Hg. split; [reflexivity|].
  intros Hw look fs. rewrite Hw.
  unfold handle_signal, bind, gets. cbn [global_nannies for_each ret app
                                         loop_running].
  destruct (loop_running w); reflexivity.
Qed.

Lemma signal_after_launch_witness :
  exists l w',
    main_launch eight_cores two_workers initial_world = (Val l, w') /\
    handle_signal all_running failing_fs w'
    = (Err (Exn (SystemExit 1) None), w').
Proof.
  destruct (main_launch eight_cores two_workers initial_world)
    as [[l|e] w'] eqn:E; [|vm_compute in E; discriminate].
  exists l, w'. split; [reflexivity|].
  exact (proj2 (signal_after_launch eight_cores two_workers initial_world w' l
                  eq_refl E) eq_refl all_running failing_fs).
Defined.

(** ** The option strings: malformed tokens, repeated keys, blanks *)

Lemma dict_update_seq_malformed (seq : list (list string)) :
  forall d p, In p seq -> List.length p <> 2%nat ->
    dict_update_seq d seq = Err (Exn ValueError None).
Proof.
  induction seq as [|q seq IH]; intros d p Hin Hlen; [destruct Hin|].
  cbn [dict_update_seq].
  destruct q as [|k [|v [|x q]]]; try reflexivity.
  destruct Hin as [<-|Hin]; [now elim Hlen | eapply IH; eauto].
Qed.

Lemma dict_update_seq_error_inv (seq : list (list string)) :
  forall d e, dict_update_seq d seq = Err e ->
    exists p, In p seq /\ List.length p <> 2%nat.
Proof.
  induction seq as [|q seq IH]; intros d e H; cbn [dict_update_seq] in H;
    [discriminate|].
  destruct q as [|k [|v [|x q]]];
    try (eexists; split; [now left | cbn; lia]).
  destruct (IH _ _ H) as (p & Hin & Hlen). exists p. split; [now right | exact Hlen].
Qed.

Lemma dict_set_keys {V} (k k' : string) (v : V) (d : dict V) :
  In k' (map fst (dict_set k v d)) <-> k' = k \/ In k' (map fst d).
Proof.
  induction d as [|[k0 v0] d IH]; cbn [dict_set map fst In].
  - intuition congruence.
  - destruct (String.eqb_spec k k0) as [->|Hne]; cbn [map fst In].
    + intuition congruence.
    + rewrite IH. intuition congruence.
Qed.

Lemma dict_set_NoDup {V} (k : string) (v : V) (d : dict V) :
  NoDup (map fst d) -> NoDup (map fst (dict_set k v d)).
Proof.
  induction d as [|[k0 v0] d IH]; cbn [dict_set map fst]; intros Hnd.
  - constructor; [intros [] | constructor].
  - inversion Hnd as [|? ? Hnotin Hnd']; subst.
    destruct (String.eqb_spec k k0) as [->|Hne]; cbn [map fst].
    + now constructor.
    + constructor; [|now apply IH].
      rewrite dict_set_keys. intros [E|Hin]; [congruence | contradiction].
Qed.

Lemma dict_update_seq_NoDup (seq : list (list string)) :
  forall d d', dict_update_seq d seq = Val d' ->
    NoDup (map fst d) -> NoDup (map fst d').
Proof.
  induction seq as [|q seq IH]; intros d d' H Hnd; cbn [dict_update_seq] in H.
  - now injection H as <-.
  - destruct q as [|k [|v [|x q]]]; try discriminate.
    eapply IH; [exact H | now apply dict_set_NoDup].
Qed.

(** A value found in [dict(seq)] is the value of the last element of the
    sequence with this key, or it was there before and no element has the
    key. *)
Lemma dict_update_seq_get_inv (seq : list (list string)) :
  forall d d' k v, dict_update_seq d seq = Val d' ->
    dict_get k d' = Some v ->
    (exists pre post, seq = pre ++ [k; v] :: post /\
                      forall v', ~ In [k; v'] post) \/
    (dict_get k d = Some v /\ forall v', ~ In [k; v'] seq).
Proof.
  induction seq as [|q seq IH]; intros d d' k v H Hget;
    cbn [dict_update_seq] in H.
  - injection H as <-. right. split; [exact Hget | intros v' []].
  - destruct q as [|k0 [|v0 [|x q]]]; try discriminate.
    destruct (IH _ _ k v H Hget) as [(pre & post & -> & Hno) | [Hg Hno]].
    + left. exists ([k0; v0] :: pre), post. split; [reflexivity | exact Hno].
    + destruct (String.eqb_spec k k0) as [->|Hne].
      * rewrite dict_get_set_same in Hg. injection Hg as ->.
        left. exists [], seq. split; [reflexivity | exact Hno].
      * rewrite dict_get_set_other in Hg by exact Hne.
        right. split; [exact Hg|].
        intros v' [E|Hin]; [congruence | now apply (Hno v')].
Qed.

Lemma dict_get_of_In {V} (k : string) (v : V) (d : dict V) :
  NoDup (map fst d) -> In (k, v) d -> dict_get k d = Some v.
Proof.
  induction d as [|[k0 v0] d IH]; cbn [map fst dict_get]; intros Hnd Hin;
    [destruct Hin|].
  inversion Hnd as [|? ? Hnotin Hnd']; subst.
  destruct Hin as [E|Hin].
  - injection E as -> ->. now rewrite String.eqb_refl.
  - destruct (String.eqb_spec k k0) as [->|Hne]; [|now apply IH].
    elim Hnotin. apply in_map_iff. now exists (k0, v).
Qed.

Section ValmapGet.

Context {V W : Type}.
Variable func : V -> result W.

Lemma valmap_get (d : dict V) (d' : dict W) (k : string) :
  valmap func d = Val d' ->
  forall w, dict_get k d' = Some w <->
            exists v, dict_get k d = Some v /\ func v = Val w.
Proof.
  revert d'. induction d as [|[k0 v0] d IH]; intros d' H w;
    cbn [valmap] in H.
  - injection H as <-. cbn. split; [discriminate | now intros (v & E & _)].
  - destruct (func v0) as [w0|e] eqn:E0; [|discriminate]. cbn [rbind] in H.
    destruct (valmap func d) as [d0|e]; [|discriminate]. cbn [rbind] in H.
    injection H as <-. cbn [dict_get].
    destruct (String.eqb k k0).
    + split.
      * intros E. injection E as <-. now exists v0.
      * intros (v & E & Hv). injection E as <-. congruence.
    + now apply IH.
Qed.

End ValmapGet.

(** X10: the resources string is rejected exactly when one of its tokens
    is not KEY=VALUE around a single [=], or has a value that is not numeric
    under a key that no later token repeats; the exception is then the
    [ValueError] of the interpreter, which nothing in [main] catches. *)
Theorem resources_rejected_iff (s : string) :
  ((exists e, parse_resources s = Err e) <->
   has_malformed_pair s \/ has_final_non_numeric_value s) /\
  (forall e, parse_resources s = Err e -> e = Exn ValueError None).
Proof.
  rewrite parse_resources_unfold. unfold dict_of_seq. split; [split|].
  - intros (e & H). destruct (str_truthy s); [|discriminate].
    destruct (dict_update_seq [] (pairs_of s)) as [pairs|e0] eqn:E0;
      cbn [rbind] in H.
    + right.
      destruct (valmap float_of_str pairs) as [d|e1] eqn:E1; [discriminate|].
      destruct (valmap_error _ _ _ E1) as (v & Hin & Hv).
      apply in_map_iff in Hin. destruct Hin as ([k v'] & Ev & Hin).
      cbn in Ev. subst v'.
      assert (Hnd : NoDup (map fst pairs)).
      { apply (dict_update_seq_NoDup _ _ _ E0). constructor. }
      pose proof (dict_get_of_In k v pairs Hnd Hin) as Hget.
      destruct (dict_update_seq_get_inv _ _ _ k v E0 Hget)
        as [(pre & post & Eq & Hno) | [Hg _]]; [|discriminate].
      exists pre, k, v, post, e1. now repeat split.
    + left. exact (dict_update_seq_error_inv _ _ _ E0).
  - intros H.
    assert (Hs : str_truthy s = true).
    { apply pairs_of_nonempty.
      destruct H as [(p & Hin & _) | (pre & k & v & post & e & Heq & _)].
      - intros E. rewrite E in Hin. destruct Hin.
      - rewrite Heq. now destruct pre. }
    rewrite Hs.
    destruct H as [(p & Hin & Hlen) | (pre & k & v & post & e & Heq & Hv & Hlast)].
    + rewrite (dict_update_seq_malformed _ [] p Hin Hlen). cbn. eauto.
    + destruct (dict_update_seq [] (pairs_of s)) as [pairs|e0] eqn:E0;
        cbn [rbind]; [|eauto].
      destruct (valmap float_of_str pairs) as [d|e1] eqn:E1; cbn [rbind];
        [|eauto].
      rewrite Heq in E0.
      pose proof (dict_update_seq_last pre post _ _ k v E0 Hlast) as Hget.
      destruct (valmap_defined _ _ _ E1 k v (dict_get_In _ _ _ Hget)) as [x Hx].
      congruence.
  - intros e H. destruct (str_truthy s); [|discriminate].
    destruct (dict_update_seq [] (pairs_of s)) as [pairs|e0] eqn:E0;
      cbn [rbind] in H.
    + destruct (valmap float_of_str pairs) as [d|e1] eqn:E1; [discriminate|].
      cbn [rbind] in H. injection H as <-.
      destruct (valmap_error _ _ _ E1) as (v & _ & Hv).
      exact (float_of_str_error _ _ Hv).
    + injection H as <-. exact (dict_update_seq_error _ _ _ E0).
Qed.

(** X11: a token of the lifetime string that is not KEY=VALUE around a
    single [=] makes the lifetime block raise its own [ValueError]
    "Lifetime specifier not understood, ...". *)
Theorem lifetime_malformed_pair_rejected (s : string) :
  has_malformed_pair s ->
  parse_lifetime s = Err lifetime_error.
Proof.
  intros (p & Hin & Hlen).
  assert (Hs : str_truthy s = true).
  { apply pairs_of_nonempty. intros E. rewrite E in Hin. destruct Hin. }
  apply (parse_lifetime_error s Hs). intros seconds Hsec.
  rewrite lifetime_seconds_unfold in Hsec. unfold dict_of_seq in Hsec.
  now rewrite (dict_update_seq_malformed _ [] p Hin Hlen) in Hsec.
Qed.

Lemma lifetime_malformed_pair_rejected_witness :
  parse_lifetime "d" = Err lifetime_error /\
  parse_lifetime "h=1=2" = Err lifetime_error.
Proof.
  split.
  - apply (lifetime_malformed_pair_rejected "d").
    exists ["d"]. split; [now left | discriminate].
  - apply (lifetime_malformed_pair_rejected "h=1=2").
    exists ["h"; "1"; "2"]. split; [now left | discriminate].
Defined.

(** X12: the resource map of a string that parses has every key once, and
    holds under a key exactly the number of the last token with that key:
    an earlier token with the same key leaves no trace. *)
Theorem resources_last_token_wins (s : string) (d : dict float) :
  parse_resources s = Val (Some d) ->
  NoDup (map fst d) /\
  forall k x,
    dict_get k d = Some x <->
    exists pre v post,
      pairs_of s = pre ++ [k; v] :: post /\
      (forall v', ~ In [k; v'] post) /\
      float_of_str v = Val x.
Proof.
  rewrite parse_resources_unfold. unfold dict_of_seq.
  destruct (str_truthy s); [|discriminate].
  destruct (dict_update_seq [] (pairs_of s)) as [pairs|] eqn:E0; [|discriminate].
  cbn [rbind].
  destruct (valmap float_of_str pairs) as [d0|] eqn:E1; [|discriminate].
  cbn [rbind]. intros H. injection H as <-.
  assert (Hnd : NoDup (map fst pairs)).
  { apply (dict_update_seq_NoDup _ _ _ E0). constructor. }
  split.
  - now rewrite (valmap_keys _ _ _ E1).
  - intros k x. rewrite (valmap_get float_of_str pairs d0 k E1 x). split.
    + intros (v & Hget & Hv).
      destruct (dict_update_seq_get_inv _ _ _ k v E0 Hget)
        as [(pre & post & Eq & Hno) | [Hg _]]; [|discriminate].
      now exists pre, v, post.
    + intros (pre & v & post & Eq & Hno & Hv).
      exists v. split; [|exact Hv].
      rewrite Eq in E0. exact (dict_update_seq_last pre post _ _ k v E0 Hno).
Qed.

Lemma resources_last_token_wins_witness :
  parse_resources "GPU=1 MEM=5 GPU=2"
  = Val (Some [("GPU", float_of_int 2); ("MEM", float_of_int 5)]) /\
  NoDup ["GPU"; "MEM"].
Proof.
  split; [vm_compute; reflexivity|].
  exact (proj1 (resources_last_token_wins "GPU=1 MEM=5 GPU=2"
                  [("GPU", float_of_int 2); ("MEM", float_of_int 5)]
                  eq_refl)).
Defined.

Lemma str_split_blank (s : string) :
  all_blank s = true -> str_split (str_replace "," " " s) = [].
Proof.
  induction s as [|c s IH]; cbn [all_blank str_replace str_split];
    [reflexivity|].
  intros H. apply andb_true_iff in H. destruct H as [Hc Hs].
  destruct (Ascii.eqb c ",") eqn:Ec.
  - change (isspace " ") with true. cbv iota. now apply IH.
  - rewrite orb_false_r in Hc. rewrite Hc. now apply IH.
Qed.

(** X13: an option string that is not empty and holds only whitespace and
    commas gives the empty resource map (not [None]) and the lifetime [0],
    the [int] that [sum] starts from, which is falsy. *)
Theorem blank_option_strings (s : string) :
  s <> "" -> all_blank s = true ->
  parse_resources s = Val (Some []) /\
  parse_lifetime s = Val (Some (Int 0)).
Proof.
  intros Hne Hb.
  assert (Hs : str_truthy s = true) by (destruct s; [now elim Hne | reflexivity]).
  assert (Hp : pairs_of s = []).
  { unfold pairs_of. now rewrite (str_split_blank s Hb). }
  split.
  - rewrite parse_resources_unfold, Hs, Hp. reflexivity.
  - unfold parse_lifetime. rewrite Hs, lifetime_seconds_unfold, Hp. reflexivity.
Qed.

Lemma blank_option_strings_witness :
  parse_resources " , " = Val (Some []) /\
  parse_lifetime " , " = Val (Some (Int 0)).
Proof.
  apply (blank_option_strings " , "); [discriminate | reflexivity].
Defined.

(** ** The signal handler, the loop and its end *)

Lemma rmtree_escapes (fs : option string -> option exn)
  (dir : option string) (e : exn) (w : world) :
  fs dir = Some e ->
  caught_by [OSError; IOError; TypeError] e = false ->
  try_except (rmtree fs dir) [OSError; IOError; TypeError] (ret tt) w
  = (Err e, record [Rmtree dir] w).
Proof.
  intros Hn Hc. unfold try_except, rmtree, bind, emit. rewrite Hn.
  unfold raise. now rewrite Hc.
Qed.

(** X14: an exception of [shutil.rmtree] outside [OSError], [IOError] and
    [TypeError] leaves the handler at once: the directories of the nannies
    tracked after that one are not touched, the stop of the loop is not
    scheduled and [exit(1)] is not reached. *)
Theorem handle_signal_unexpected_error (look : snapshot)
  (fs : option string -> option exn) (w : world)
  (pre post : list nat) (n : nat) (e : exn) :
  global_nannies w = pre ++ n :: post ->
  (forall m e', In m pre -> fs (Inst.worker_dir (look m)) = Some e' ->
     exn_cls e' = OSError \/ exn_cls e' = IOError \/ exn_cls e' = TypeError) ->
  fs (Inst.worker_dir (look n)) = Some e ->
  caught_by [OSError; IOError; TypeError] e = false ->
  handle_signal look fs w
  = (Err e,
     record (map (fun m => Rmtree (Inst.worker_dir (look m))) (pre ++ [n])) w).
Proof.
  intros Hg Hpre Hn Hc. unfold handle_signal.
  unfold bind at 1, gets at 1. rewrite Hg. unfold bind at 1.
  assert (Hloop : forall w0,
    for_each (pre ++ n :: post) (fun nanny =>
      try_except (rmtree fs (Inst.worker_dir (look nanny)))
                 [OSError; IOError; TypeError] (ret tt)) w0
    = (Err e, record (map (fun m => Rmtree (Inst.worker_dir (look m)))
                          (pre ++ [n])) w0)).
  { clear Hg. induction pre as [|m pre IH]; intros w0; cbn [app for_each map].
    - unfold bind. now rewrite (rmtree_escapes fs _ e w0 Hn Hc).
    - unfold bind at 1. rewrite rmtree_swallowed.
      + rewrite IH; [now rewrite record_record|].
        intros m' e' Hin. apply Hpre. now right.
      + intros e'. apply Hpre. now left. }
  now rewrite Hloop.
Qed.

Lemma handle_signal_unexpected_error_witness :
  handle_signal all_running odd_fs (two_tracked true)
  = (Err (Exn ValueError None),
     record [Rmtree (Some "/tmp/nanny-0")] (two_tracked true)).
Proof.
  apply (handle_signal_unexpected_error all_running odd_fs (two_tracked true)
           [] [1%nat] 0%nat (Exn ValueError None)).
  - reflexivity.
  - intros m e' [].
  - reflexivity.
  - reflexivity.
Defined.

Lemma forallb_false_inv {A} (p : A -> bool) (xs : list A) :
  forallb p xs = false -> exists x, In x xs /\ p x = false.
Proof.
  induction xs as [|x xs IH]; cbn [forallb]; [discriminate|].
  destruct (p x) eqn:E; cbn [andb].
  - intros H. destruct (IH H) as (y & Hin & Hy). exists y. split; [now right | exact Hy].
  - intros _. exists x. split; [now left | exact E].
Qed.

(** X15: [run] returns exactly when the flag is set or some instance is
    closed; otherwise it sleeps 0.2 s and looks again.  One closed instance
    out of several is enough to end the wait. *)
Theorem run_returns_iff (nannies : list nat) (look : snapshot) (w : world) :
  (run nannies look w = Return <->
   retired w = true \/
   exists n, In n nannies /\ Inst.status (look n) = Closed) /\
  (run nannies look w = Return \/ run nannies look w = Yield_sleep (2 # 10)).
Proof.
  unfold run, run_condition.
  destruct (forallb (fun n => negb (status_eqb (Inst.status (look n)) Closed))
                    nannies) eqn:Ef; cbn [andb].
  - destruct (retired w) eqn:Er; cbn [negb].
    + split; [split; auto | now left].
    + split; [|now right]. split; [discriminate|].
      intros [H|(n & Hin & Hc)]; [discriminate|].
      rewrite forallb_forall in Ef. specialize (Ef n Hin).
      rewrite Hc in Ef. discriminate.
  - split; [|now left]. split; [|reflexivity]. intros _. right.
    destruct (forallb_false_inv _ _ Ef) as (n & Hin & Hn).
    exists n. split; [exact Hin|].
    destruct (Inst.status (look n)); try discriminate. reflexivity.
Qed.

(** X16: with no instance at all ([nprocs <= 0] and [nthreads] given),
    nothing ends the wait: [run] goes on sleeping as long as the flag is not
    set, and [retire], which would set it, raises [IndexError] on
    [nannies[0]] after its first log line and leaves the flag as it was; the
    teardown, if it is ever reached, ends with the same [IndexError] before
    it stops anything. *)
Theorem no_instance_never_ends (nanny : bool) (look : snapshot)
  (looks : nat -> snapshot) (late : nat -> Q) (a : answer) (fuel : nat)
  (w : world) :
  retired w = false ->
  run [] look w = Yield_sleep (2 # 10) /\
  retire nanny [] look w
  = (Err (Exn IndexError None), record [LogInfo "Retiring worker..."] w) /\
  run [] look (snd (retire nanny [] look w)) = Yield_sleep (2 # 10) /\
  main_teardown fuel nanny [] looks late a w
  = Some (Err (Exn IndexError None), record [NewLoop] w).
Proof.
  intros Hr. unfold run, run_condition. cbn [forallb andb].
  rewrite Hr. repeat split. cbn. now rewrite Hr.
Qed.

Lemma no_instance_never_ends_witness :
  run [] all_running (snd (retire true [] all_running initial_world))
  = Yield_sleep (2 # 10).
Proof.
  exact (proj1 (proj2 (proj2
           (no_instance_never_ends true all_running never_exit punctual Never
              0 initial_world eq_refl)))).
Defined.

(** X17: however the primary loop ends, "End worker" is logged and the loop
    is closed; when it ended with [KeyboardInterrupt] or [TimeoutError] the
    exception is dropped and [main] goes on to the teardown, and with any
    other exception [main] ends there, the loop closed and nothing torn
    down. *)
Theorem loop_exception_handling (env : environment) (o : options)
  (during : launched -> M unit) (fuel : nat) (looks : nat -> snapshot)
  (late : nat -> Q) (a : answer) (w w1 w2 : world) (l : launched) (e : exn) :
  main_launch env o w = (Val l, w1) ->
  during l w1 = (Err e, w2) ->
  main env o during fuel looks late a w
  = if caught_by [KeyboardInterrupt; TimeoutError] e
    then main_teardown fuel (nanny o) (nannies l) looks late a
           (record [LogInfo "End worker"; CloseLoop] w2)
    else Some (Err e, record [LogInfo "End worker"; CloseLoop] w2).
Proof.
  intros Hl Hd. unfold main. rewrite Hl.
  unfold run_sync_run, try_finally, try_except. rewrite Hd.
  destruct (caught_by [KeyboardInterrupt; TimeoutError] e);
    unfold ret, bind, emit; rewrite record_record; reflexivity.
Qed.

Lemma loop_exception_handling_witness :
  exists l w1,
    main_launch eight_cores two_workers initial_world = (Val l, w1) /\
    main eight_cores two_workers
         (fun _ => raise (Exn KeyboardInterrupt None)) 11 never_exit punctual
         Never initial_world
    = main_teardown 11 false (nannies l) never_exit punctual Never
        (record [LogInfo "End worker"; CloseLoop] w1).
Proof.
  destruct (main_launch eight_cores two_workers initial_world)
    as [[l|e] w1] eqn:E; [|vm_compute in E; discriminate].
  exists l, w1. split; [reflexivity|].
  exact (loop_exception_handling eight_cores two_workers
           (fun _ => raise (Exn KeyboardInterrupt None)) 11 never_exit
           punctual Never initial_world w1 w1 l (Exn KeyboardInterrupt None)
           E eq_refl).
Defined.

(** ** The teardown in full *)

Lemma terminate_children_spec (nannies : list nat) (look : snapshot)
  (w : world) :
  terminate_children true nannies look w
  = (Val tt, record (map Terminate (alive_list nannies look)) w).
Proof.
  unfold terminate_children, when at 1, alive_list. revert w.
  induction nannies as [|n ns IH]; intros w; cbn [for_each filter map].
  - unfold ret. now rewrite record_nil.
  - unfold bind. destruct (Inst.process_isalive (look n)); cbn [when map].
    + unfold emit at 1. rewrite IH. now rewrite record_record.
    + unfold ret at 1. apply IH.
Qed.

(** X18: without nannies the teardown asks the scheduler nothing,
    terminates nothing and waits for nothing: on a fresh loop it does no
    call, and it stops every instance in order, whatever the scheduler and
    the children do. *)
Theorem worker_mode_teardown (fuel : nat) (first : nat) (rest : list nat)
  (looks : nat -> snapshot) (late : nat -> Q) (a : answer) (w : world) :
  main_teardown fuel false (first :: rest) looks late a w
  = Some (Val tt, record (NewLoop :: map Stop (first :: rest)) w).
Proof.
  unfold main_teardown, f, terminate_children, when, stop_all.
  unfold bind at 1, emit at 1, ret. cbv beta iota.
  rewrite (for_each_emit Stop), record_record. reflexivity.
Qed.

(** X19: in nanny mode, when the scheduler answers the [unregister] calls
    within the two seconds, the teardown returns, and it has done, in this
    order: the calls on the fresh loop, [terminate] for exactly the children
    alive after the answer, at most ten sleeps of 0.1 s, and [stop] for
    every instance; when no child is alive after the answer it does not
    sleep at all. *)
Theorem orderly_teardown (fuel : nat) (first : nat) (rest : list nat)
  (looks : nat -> snapshot) (late : nat -> Q) (t : Q) (w : world) :
  (forall k, (0 <= late k)%Q) ->
  (11 <= fuel)%nat ->
  Qlt_bool t 2 = true ->
  let nannies := first :: rest in
  let after := looks (S (waits w)) in
  exists sleeps w',
    (sleeps <= 10)%nat /\
    main_teardown fuel true nannies looks late (Completes t) w
    = Some (Val tt, w') /\
    trace w'
    = trace w
      ++ unregister_events nannies (looks (waits w))
      ++ map Terminate (alive_list nannies after)
      ++ repeat (Sleep (1 # 10)) sleeps
      ++ map Stop nannies /\
    (any_alive nannies after = false -> sleeps = 0%nat).
Proof.
  intros Hlate Hf Ht nannies after. subst nannies after.
  unfold main_teardown, f, when.
  unfold bind at 1, emit at 1. unfold bind at 1.
  rewrite for_each_emit, record_record.
  unfold with_timeout. rewrite Ht. unfold elapse.
  cbn [waits record trace]. rewrite terminate_children_spec.
  set (w1 := {| trace := _; retired := _; global_nannies := _;
                loop_running := _; now := _; waits := S (waits w) |}).
  set (w2 := record (map Terminate (alive_list (first :: rest)
                                       (looks (S (waits w))))) w1).
  destruct (wait_children_enough (first :: rest) looks late Hlate (now w2) 10 w2)
    as (sleeps & w3 & Hle & Hrun & Htr & Hwt & _).
  { change (inject_Z (Z.of_nat 10)) with 10%Q. lra. }
  exists sleeps, (snd (stop_all (first :: rest) w3)).
  split; [exact Hle|]. split; [|split].
  - rewrite (Hrun fuel) by lia. unfold stop_all.
    now rewrite (for_each_emit Stop).
  - unfold stop_all. rewrite (for_each_emit Stop). cbn [snd record trace].
    rewrite Htr. subst w2 w1. cbn [record trace]. unfold unregister_events.
    cbn [app]. now rewrite <- !app_assoc.
  - intros Hdead.
    assert (Hnow : wait_children 11 (first :: rest) looks late (now w2) w2
                   = Some w2).
    { cbn [wait_children]. subst w2 w1. cbn [record waits].
      now rewrite Hdead. }
    rewrite (Hrun 11%nat) in Hnow by lia. injection Hnow as ->.
    rewrite <- (app_nil_r (trace w2)) in Htr at 1.
    apply app_inv_head in Htr. now destruct sleeps.
Qed.

Lemma orderly_teardown_witness :
  exists w',
    main_teardown 11 true [0%nat; 1%nat] exit_on_unregister punctual
                  (Completes (1 # 2)) initial_world
    = Some (Val tt, w') /\
    trace w'
    = [NewLoop;
       Unregister (Some "tcp://127.0.0.1:40000") true;
       Unregister (Some "tcp://127.0.0.1:40000") true;
       Stop 0; Stop 1].
Proof.
  destruct (orderly_teardown 11 0%nat [1%nat] exit_on_unregister punctual
              (1 # 2) initial_world (fun _ => Qle_refl 0) (le_n 11) eq_refl)
    as (sleeps & w' & _ & Hrun & Htr & Hzero).
  exists w'. split; [exact Hrun|].
  rewrite Htr, (Hzero eq_refl). reflexivity.
Defined.



(** ** The writer of the temp file *)



